(** * ViewController: aim computation of the drone camera

    A shallow embedding of [vgc/view_controller_fast.py].

    Numbers.  The Python code computes on floats (and on the integer
    literals it starts from).  They are idealised here as real numbers
    [R]: [+], [-], [*] are exact, a comparison is the order of [R], and a
    division by a divisor that can be zero is fallible
    ([ZeroDivisionError]), which the model returns as [None].

    Imported helpers.  [vgc.taylor_math_functions] (imported as [tf]) is
    not part of the sources at hand; its five functions are taken as a
    parameter, the record [TaylorMath].  [np.arctan2] and the float [%]
    are library operations and are modelled on [R] from their
    documentation.

    Threads.  A call of a setter and one turn of the loop of [main] are
    modelled as atomic steps; the two advisory flags are part of the
    state and are tested as the code tests them. *)

From Stdlib Require Import Reals Lra Lia ZArith Bool List.
Import ListNotations.

Open Scope R_scope.

(** ** Imported operations *)

(** The interface of [vgc.taylor_math_functions]. *)
Record TaylorMath : Type := mkTaylorMath {
  tf_sin : R -> R;
  tf_cos : R -> R;
  tf_tan : R -> R;
  tf_arctan : R -> R;
  tf_arccos : R -> R
}.

(** Modelled from the spec: the bodies of [vgc.taylor_math_functions]
    are missing; the spec reads [tf.sin], [tf.cos], [tf.tan],
    [tf.arctan] and [tf.arccos] as the trigonometric functions of those
    names, which [tf_exact] takes literally. *)
Definition tf_exact : TaylorMath := mkTaylorMath sin cos tan atan acos.

(** [np.arctan2 x1 x2]: the angle, in (-PI, PI], of the point with
    ordinate [x1] and abscissa [x2]; 0 at the origin. *)
Definition arctan2 (x1 x2 : R) : R :=
  if Rlt_dec 0 x2 then atan (x1 / x2)
  else if Rlt_dec x2 0 then
         if Rle_dec 0 x1 then atan (x1 / x2) + PI else atan (x1 / x2) - PI
  else if Rlt_dec 0 x1 then PI / 2
  else if Rlt_dec x1 0 then - (PI / 2)
  else 0.

(** Python's [a % m] on floats, for [m > 0]: [a - m * floor (a / m)].
    The exact value is below [m]; in doubles a tiny negative [a] is
    rounded up to [m] itself. *)
Definition pymod (a m : R) : R := a - m * IZR (Int_part (a / m)).

(** Python's [a / b], which raises [ZeroDivisionError] when [b] is 0. *)
Definition pydiv (a b : R) : option R :=
  if Req_dec_T b 0 then None else Some (a / b).

(** ** The object *)

Definition coord : Type := (R * R)%type.

Record ViewController : Type := mkVC {
  d_roll_in : R;
  d_pitch_in : R;
  d_yaw_in : R;
  d_height_in : R;
  d_coordinate_in : coord;
  d_roll : R;
  d_pitch : R;
  d_yaw : R;
  d_height : R;
  d_coordinate : coord;
  lock_on_in : bool;
  theta_in : R;
  phi_in : R;
  lock_on : bool;
  theta : R;
  phi : R;
  init_lock_on : bool;
  autopilot_write : bool;
  server_write : bool;
  aim_coordinate : coord;
  phi_final : R;
  theta_final : R;
  camera_roll : R;
  camera_yaw : R;
  camera_pitch : R;
  camera_zoom : R
}.

Definition set_d_roll_in (v : R) (s : ViewController) : ViewController :=
  mkVC v (d_pitch_in s) (d_yaw_in s) (d_height_in s) (d_coordinate_in s)
    (d_roll s) (d_pitch s) (d_yaw s) (d_height s) (d_coordinate s)
    (lock_on_in s) (theta_in s) (phi_in s) (lock_on s) (theta s) (phi s)
    (init_lock_on s) (autopilot_write s) (server_write s) (aim_coordinate
    s) (phi_final s) (theta_final s) (camera_roll s) (camera_yaw s)
    (camera_pitch s) (camera_zoom s).

Definition set_d_pitch_in (v : R) (s : ViewController) : ViewController :=
  mkVC (d_roll_in s) v (d_yaw_in s) (d_height_in s) (d_coordinate_in s)
    (d_roll s) (d_pitch s) (d_yaw s) (d_height s) (d_coordinate s)
    (lock_on_in s) (theta_in s) (phi_in s) (lock_on s) (theta s) (phi s)
    (init_lock_on s) (autopilot_write s) (server_write s) (aim_coordinate
    s) (phi_final s) (theta_final s) (camera_roll s) (camera_yaw s)
    (camera_pitch s) (camera_zoom s).

Definition set_d_yaw_in (v : R) (s : ViewController) : ViewController :=
  mkVC (d_roll_in s) (d_pitch_in s) v (d_height_in s) (d_coordinate_in s)
    (d_roll s) (d_pitch s) (d_yaw s) (d_height s) (d_coordinate s)
    (lock_on_in s) (theta_in s) (phi_in s) (lock_on s) (theta s) (phi s)
    (init_lock_on s) (autopilot_write s) (server_write s) (aim_coordinate
    s) (phi_final s) (theta_final s) (camera_roll s) (camera_yaw s)
    (camera_pitch s) (camera_zoom s).

Definition set_d_height_in (v : R) (s : ViewController) : ViewController :=
  mkVC (d_roll_in s) (d_pitch_in s) (d_yaw_in s) v (d_coordinate_in s)
    (d_roll s) (d_pitch s) (d_yaw s) (d_height s) (d_coordinate s)
    (lock_on_in s) (theta_in s) (phi_in s) (lock_on s) (theta s) (phi s)
    (init_lock_on s) (autopilot_write s) (server_write s) (aim_coordinate
    s) (phi_final s) (theta_final s) (camera_roll s) (camera_yaw s)
    (camera_pitch s) (camera_zoom s).

Definition set_d_coordinate_in (v : coord) (s : ViewController) : ViewController :=
  mkVC (d_roll_in s) (d_pitch_in s) (d_yaw_in s) (d_height_in s) v (d_roll
    s) (d_pitch s) (d_yaw s) (d_height s) (d_coordinate s) (lock_on_in s)
    (theta_in s) (phi_in s) (lock_on s) (theta s) (phi s) (init_lock_on s)
    (autopilot_write s) (server_write s) (aim_coordinate s) (phi_final s)
    (theta_final s) (camera_roll s) (camera_yaw s) (camera_pitch s)
    (camera_zoom s).

Definition set_d_roll (v : R) (s : ViewController) : ViewController :=
  mkVC (d_roll_in s) (d_pitch_in s) (d_yaw_in s) (d_height_in s)
    (d_coordinate_in s) v (d_pitch s) (d_yaw s) (d_height s) (d_coordinate
    s) (lock_on_in s) (theta_in s) (phi_in s) (lock_on s) (theta s) (phi
    s) (init_lock_on s) (autopilot_write s) (server_write s)
    (aim_coordinate s) (phi_final s) (theta_final s) (camera_roll s)
    (camera_yaw s) (camera_pitch s) (camera_zoom s).

Definition set_d_pitch (v : R) (s : ViewController) : ViewController :=
  mkVC (d_roll_in s) (d_pitch_in s) (d_yaw_in s) (d_height_in s)
    (d_coordinate_in s) (d_roll s) v (d_yaw s) (d_height s) (d_coordinate
    s) (lock_on_in s) (theta_in s) (phi_in s) (lock_on s) (theta s) (phi
    s) (init_lock_on s) (autopilot_write s) (server_write s)
    (aim_coordinate s) (phi_final s) (theta_final s) (camera_roll s)
    (camera_yaw s) (camera_pitch s) (camera_zoom s).

Definition set_d_yaw (v : R) (s : ViewController) : ViewController :=
  mkVC (d_roll_in s) (d_pitch_in s) (d_yaw_in s) (d_height_in s)
    (d_coordinate_in s) (d_roll s) (d_pitch s) v (d_height s)
    (d_coordinate s) (lock_on_in s) (theta_in s) (phi_in s) (lock_on s)
    (theta s) (phi s) (init_lock_on s) (autopilot_write s) (server_write
    s) (aim_coordinate s) (phi_final s) (theta_final s) (camera_roll s)
    (camera_yaw s) (camera_pitch s) (camera_zoom s).

Definition set_d_height (v : R) (s : ViewController) : ViewController :=
  mkVC (d_roll_in s) (d_pitch_in s) (d_yaw_in s) (d_height_in s)
    (d_coordinate_in s) (d_roll s) (d_pitch s) (d_yaw s) v (d_coordinate
    s) (lock_on_in s) (theta_in s) (phi_in s) (lock_on s) (theta s) (phi
    s) (init_lock_on s) (autopilot_write s) (server_write s)
    (aim_coordinate s) (phi_final s) (theta_final s) (camera_roll s)
    (camera_yaw s) (camera_pitch s) (camera_zoom s).

Definition set_d_coordinate (v : coord) (s : ViewController) : ViewController :=
  mkVC (d_roll_in s) (d_pitch_in s) (d_yaw_in s) (d_height_in s)
    (d_coordinate_in s) (d_roll s) (d_pitch s) (d_yaw s) (d_height s) v
    (lock_on_in s) (theta_in s) (phi_in s) (lock_on s) (theta s) (phi s)
    (init_lock_on s) (autopilot_write s) (server_write s) (aim_coordinate
    s) (phi_final s) (theta_final s) (camera_roll s) (camera_yaw s)
    (camera_pitch s) (camera_zoom s).

Definition set_lock_on_in (v : bool) (s : ViewController) : ViewController :=
  mkVC (d_roll_in s) (d_pitch_in s) (d_yaw_in s) (d_height_in s)
    (d_coordinate_in s) (d_roll s) (d_pitch s) (d_yaw s) (d_height s)
    (d_coordinate s) v (theta_in s) (phi_in s) (lock_on s) (theta s) (phi
    s) (init_lock_on s) (autopilot_write s) (server_write s)
    (aim_coordinate s) (phi_final s) (theta_final s) (camera_roll s)
    (camera_yaw s) (camera_pitch s) (camera_zoom s).

Definition set_theta_in (v : R) (s : ViewController) : ViewController :=
  mkVC (d_roll_in s) (d_pitch_in s) (d_yaw_in s) (d_height_in s)
    (d_coordinate_in s) (d_roll s) (d_pitch s) (d_yaw s) (d_height s)
    (d_coordinate s) (lock_on_in s) v (phi_in s) (lock_on s) (theta s)
    (phi s) (init_lock_on s) (autopilot_write s) (server_write s)
    (aim_coordinate s) (phi_final s) (theta_final s) (camera_roll s)
    (camera_yaw s) (camera_pitch s) (camera_zoom s).

Definition set_phi_in (v : R) (s : ViewController) : ViewController :=
  mkVC (d_roll_in s) (d_pitch_in s) (d_yaw_in s) (d_height_in s)
    (d_coordinate_in s) (d_roll s) (d_pitch s) (d_yaw s) (d_height s)
    (d_coordinate s) (lock_on_in s) (theta_in s) v (lock_on s) (theta s)
    (phi s) (init_lock_on s) (autopilot_write s) (server_write s)
    (aim_coordinate s) (phi_final s) (theta_final s) (camera_roll s)
    (camera_yaw s) (camera_pitch s) (camera_zoom s).

Definition set_lock_on (v : bool) (s : ViewController) : ViewController :=
  mkVC (d_roll_in s) (d_pitch_in s) (d_yaw_in s) (d_height_in s)
    (d_coordinate_in s) (d_roll s) (d_pitch s) (d_yaw s) (d_height s)
    (d_coordinate s) (lock_on_in s) (theta_in s) (phi_in s) v (theta s)
    (phi s) (init_lock_on s) (autopilot_write s) (server_write s)
    (aim_coordinate s) (phi_final s) (theta_final s) (camera_roll s)
    (camera_yaw s) (camera_pitch s) (camera_zoom s).

Definition set_theta (v : R) (s : ViewController) : ViewController :=
  mkVC (d_roll_in s) (d_pitch_in s) (d_yaw_in s) (d_height_in s)
    (d_coordinate_in s) (d_roll s) (d_pitch s) (d_yaw s) (d_height s)
    (d_coordinate s) (lock_on_in s) (theta_in s) (phi_in s) (lock_on s) v
    (phi s) (init_lock_on s) (autopilot_write s) (server_write s)
    (aim_coordinate s) (phi_final s) (theta_final s) (camera_roll s)
    (camera_yaw s) (camera_pitch s) (camera_zoom s).

Definition set_phi (v : R) (s : ViewController) : ViewController :=
  mkVC (d_roll_in s) (d_pitch_in s) (d_yaw_in s) (d_height_in s)
    (d_coordinate_in s) (d_roll s) (d_pitch s) (d_yaw s) (d_height s)
    (d_coordinate s) (lock_on_in s) (theta_in s) (phi_in s) (lock_on s)
    (theta s) v (init_lock_on s) (autopilot_write s) (server_write s)
    (aim_coordinate s) (phi_final s) (theta_final s) (camera_roll s)
    (camera_yaw s) (camera_pitch s) (camera_zoom s).

Definition set_init_lock_on (v : bool) (s : ViewController) : ViewController :=
  mkVC (d_roll_in s) (d_pitch_in s) (d_yaw_in s) (d_height_in s)
    (d_coordinate_in s) (d_roll s) (d_pitch s) (d_yaw s) (d_height s)
    (d_coordinate s) (lock_on_in s) (theta_in s) (phi_in s) (lock_on s)
    (theta s) (phi s) v (autopilot_write s) (server_write s)
    (aim_coordinate s) (phi_final s) (theta_final s) (camera_roll s)
    (camera_yaw s) (camera_pitch s) (camera_zoom s).

Definition set_autopilot_write (v : bool) (s : ViewController) : ViewController :=
  mkVC (d_roll_in s) (d_pitch_in s) (d_yaw_in s) (d_height_in s)
    (d_coordinate_in s) (d_roll s) (d_pitch s) (d_yaw s) (d_height s)
    (d_coordinate s) (lock_on_in s) (theta_in s) (phi_in s) (lock_on s)
    (theta s) (phi s) (init_lock_on s) v (server_write s) (aim_coordinate
    s) (phi_final s) (theta_final s) (camera_roll s) (camera_yaw s)
    (camera_pitch s) (camera_zoom s).

Definition set_server_write (v : bool) (s : ViewController) : ViewController :=
  mkVC (d_roll_in s) (d_pitch_in s) (d_yaw_in s) (d_height_in s)
    (d_coordinate_in s) (d_roll s) (d_pitch s) (d_yaw s) (d_height s)
    (d_coordinate s) (lock_on_in s) (theta_in s) (phi_in s) (lock_on s)
    (theta s) (phi s) (init_lock_on s) (autopilot_write s) v
    (aim_coordinate s) (phi_final s) (theta_final s) (camera_roll s)
    (camera_yaw s) (camera_pitch s) (camera_zoom s).

Definition set_aim_coordinate (v : coord) (s : ViewController) : ViewController :=
  mkVC (d_roll_in s) (d_pitch_in s) (d_yaw_in s) (d_height_in s)
    (d_coordinate_in s) (d_roll s) (d_pitch s) (d_yaw s) (d_height s)
    (d_coordinate s) (lock_on_in s) (theta_in s) (phi_in s) (lock_on s)
    (theta s) (phi s) (init_lock_on s) (autopilot_write s) (server_write
    s) v (phi_final s) (theta_final s) (camera_roll s) (camera_yaw s)
    (camera_pitch s) (camera_zoom s).

Definition set_phi_final (v : R) (s : ViewController) : ViewController :=
  mkVC (d_roll_in s) (d_pitch_in s) (d_yaw_in s) (d_height_in s)
    (d_coordinate_in s) (d_roll s) (d_pitch s) (d_yaw s) (d_height s)
    (d_coordinate s) (lock_on_in s) (theta_in s) (phi_in s) (lock_on s)
    (theta s) (phi s) (init_lock_on s) (autopilot_write s) (server_write
    s) (aim_coordinate s) v (theta_final s) (camera_roll s) (camera_yaw s)
    (camera_pitch s) (camera_zoom s).

Definition set_theta_final (v : R) (s : ViewController) : ViewController :=
  mkVC (d_roll_in s) (d_pitch_in s) (d_yaw_in s) (d_height_in s)
    (d_coordinate_in s) (d_roll s) (d_pitch s) (d_yaw s) (d_height s)
    (d_coordinate s) (lock_on_in s) (theta_in s) (phi_in s) (lock_on s)
    (theta s) (phi s) (init_lock_on s) (autopilot_write s) (server_write
    s) (aim_coordinate s) (phi_final s) v (camera_roll s) (camera_yaw s)
    (camera_pitch s) (camera_zoom s).

Definition set_camera_roll (v : R) (s : ViewController) : ViewController :=
  mkVC (d_roll_in s) (d_pitch_in s) (d_yaw_in s) (d_height_in s)
    (d_coordinate_in s) (d_roll s) (d_pitch s) (d_yaw s) (d_height s)
    (d_coordinate s) (lock_on_in s) (theta_in s) (phi_in s) (lock_on s)
    (theta s) (phi s) (init_lock_on s) (autopilot_write s) (server_write
    s) (aim_coordinate s) (phi_final s) (theta_final s) v (camera_yaw s)
    (camera_pitch s) (camera_zoom s).

Definition set_camera_yaw (v : R) (s : ViewController) : ViewController :=
  mkVC (d_roll_in s) (d_pitch_in s) (d_yaw_in s) (d_height_in s)
    (d_coordinate_in s) (d_roll s) (d_pitch s) (d_yaw s) (d_height s)
    (d_coordinate s) (lock_on_in s) (theta_in s) (phi_in s) (lock_on s)
    (theta s) (phi s) (init_lock_on s) (autopilot_write s) (server_write
    s) (aim_coordinate s) (phi_final s) (theta_final s) (camera_roll s) v
    (camera_pitch s) (camera_zoom s).

Definition set_camera_pitch (v : R) (s : ViewController) : ViewController :=
  mkVC (d_roll_in s) (d_pitch_in s) (d_yaw_in s) (d_height_in s)
    (d_coordinate_in s) (d_roll s) (d_pitch s) (d_yaw s) (d_height s)
    (d_coordinate s) (lock_on_in s) (theta_in s) (phi_in s) (lock_on s)
    (theta s) (phi s) (init_lock_on s) (autopilot_write s) (server_write
    s) (aim_coordinate s) (phi_final s) (theta_final s) (camera_roll s)
    (camera_yaw s) v (camera_zoom s).

Definition set_camera_zoom (v : R) (s : ViewController) : ViewController :=
  mkVC (d_roll_in s) (d_pitch_in s) (d_yaw_in s) (d_height_in s)
    (d_coordinate_in s) (d_roll s) (d_pitch s) (d_yaw s) (d_height s)
    (d_coordinate s) (lock_on_in s) (theta_in s) (phi_in s) (lock_on s)
    (theta s) (phi s) (init_lock_on s) (autopilot_write s) (server_write
    s) (aim_coordinate s) (phi_final s) (theta_final s) (camera_roll s)
    (camera_yaw s) (camera_pitch s) v.

(** [__init__], without the pipeline and the thread handle. *)
Definition init : ViewController :=
  mkVC 0 0 0 1 (0, 0)
       0 0 0 1 (0, 0)
       false 0 0
       false 0 0 false
       false false (0, 0) 0 0
       0 0 0 2.

(** The literal [0.0174532925], as a fraction. *)
Definition DEG_IN_RED : R := 174532925 / 10000000000.

Definition deg2rad (degrees : R) : R := DEG_IN_RED * degrees.

(** The divisor is the non-zero constant [DEG_IN_RED].  Over the reals
    [rad2deg] undoes [deg2rad] exactly; in doubles only up to
    rounding. *)
Definition rad2deg (radians : R) : R := radians / DEG_IN_RED.

Arguments deg2rad : simpl never.
Arguments rad2deg : simpl never.

(** ** The setters called by the adapters *)

Definition update_autopilot_input (s : ViewController)
    (roll yaw pitch height lon lat : R) : ViewController :=
  if autopilot_write s then s
  else
    let s := set_autopilot_write true s in
    let s := set_d_roll_in (rad2deg roll) s in
    let s := set_d_pitch_in (rad2deg pitch) s in
    let s := set_d_yaw_in (rad2deg yaw) s in
    let s := if Rge_dec height 0 then set_d_height_in height s else s in
    let s := set_d_coordinate_in (lon, lat) s in
    set_autopilot_write false s.

(** The Python signature has the defaults [theta = 0], [phi = 0],
    [lock_on = False], [zoom_in = 2]: a caller who leaves an argument
    out passes these. *)
Definition update_server_input (s : ViewController)
    (theta phi : R) (lock_on : bool) (zoom_in : R) : ViewController :=
  if server_write s then s
  else
    let s := set_server_write true s in
    let s :=
      if negb lock_on then
        if Rge_dec theta 90 then set_phi_in phi (set_theta_in 89 s)
        else if Rlt_dec theta 0 then set_phi_in phi (set_theta_in 0 s)
        else set_phi_in phi (set_theta_in theta s)
      else s in
    let s :=
      if lock_on && negb (lock_on_in s) then set_init_lock_on true s
      else s in
    let s := set_lock_on_in lock_on s in
    let s :=
      if Rge_dec zoom_in 2 then
        if Rle_dec zoom_in 50 then set_camera_zoom zoom_in s else s
      else s in
    set_server_write false s.

(** ** Vectors and matrices

    A [numpy.matrix] of shape 3x1 is a triple, one of shape 3x3 the
    triple of its rows. *)

Definition vec3 : Type := (R * R * R)%type.
Definition mat3 : Type := (vec3 * vec3 * vec3)%type.

Definition identity3 : mat3 := ((1, 0, 0), (0, 1, 0), (0, 0, 1)).

Definition dot3 (u v : vec3) : R :=
  let '(a, b, c) := u in
  let '(x, y, z) := v in
  a * x + b * y + c * z.

Definition transpose (m : mat3) : mat3 :=
  let '((a, b, c), (d, e, f), (g, h, i)) := m in
  ((a, d, g), (b, e, h), (c, f, i)).

(** [m.dot(v)] for a column [v]. *)
Definition mat_vec (m : mat3) (v : vec3) : vec3 :=
  let '(r1, r2, r3) := m in (dot3 r1 v, dot3 r2 v, dot3 r3 v).

(** [a.dot(b)] for two 3x3 matrices: rows of [a] against columns of
    [b]. *)
Definition mat_dot (a b : mat3) : mat3 :=
  let '(r1, r2, r3) := a in
  let '(c1, c2, c3) := transpose b in
  ((dot3 r1 c1, dot3 r1 c2, dot3 r1 c3),
   (dot3 r2 c1, dot3 r2 c2, dot3 r2 c3),
   (dot3 r3 c1, dot3 r3 c2, dot3 r3 c3)).

(** ** Calls of [point_to_coordinate] made by the loop

    The loop is written in an error monad that also records, in order,
    the arguments of every call of [point_to_coordinate] it makes. *)

Record capture : Type := mkCapture {
  cap_theta : R;
  cap_phi : R;
  cap_height : R;
  cap_coordinate : coord
}.

Definition M (A : Type) : Type := option (A * list capture).

Definition ret {A : Type} (a : A) : M A := Some (a, []).

Definition bind {A B : Type} (m : M A) (k : A -> M B) : M B :=
  match m with
  | None => None
  | Some (a, l1) =>
      match k a with
      | None => None
      | Some (b, l2) => Some (b, l1 ++ l2)
      end
  end.

Definition lift {A : Type} (o : option A) : M A :=
  match o with
  | None => None
  | Some a => ret a
  end.

Definition record_call (c : capture) : M unit := Some (tt, [c]).

Notation "x <- m ;; k" := (bind m (fun x => k))
  (at level 61, m at next level, right associativity).
Notation "' p <- m ;; k" := (bind m (fun x => let p := x in k))
  (at level 61, p pattern, m at next level, right associativity).

Section Controller.

Variable tf : TaylorMath.

(** ** Geodesy *)

Definition earth_radius_at_lat (lat : R) : R :=
  let earth_radius_at_equator := 6378137 in
  let radius_difference_pole_equator := 21385 in
  earth_radius_at_equator - (lat / 90) * radius_difference_pole_equator.

Definition coordinate_to_point (coord1 coord2 : coord) (height : R)
    : option (R * R) :=
  let coord_diff := (fst coord2 - fst coord1, snd coord2 - snd coord1) in
  let x_diff :=
    tf_tan tf (deg2rad (fst coord_diff)) * earth_radius_at_lat (snd coord1) in
  let y_diff :=
    tf_tan tf (deg2rad (snd coord_diff)) * earth_radius_at_lat (snd coord1) in
  let phi :=
    if Req_dec_T x_diff 0 then
      if Req_dec_T y_diff 0 then 0 else arctan2 x_diff y_diff
    else arctan2 x_diff y_diff in
  match pydiv (sqrt (x_diff ^ 2 + y_diff ^ 2)) height with
  | None => None
  | Some q =>
      let theta_2 := tf_arctan tf q in
      Some (rad2deg theta_2, pymod (rad2deg phi) 360)
  end.

Definition point_to_coordinate (theta phi height : R) (d_coord : coord)
    : option coord :=
  match pydiv (height * tf_tan tf (deg2rad theta) * tf_cos tf (deg2rad phi))
              (earth_radius_at_lat (snd d_coord)) with
  | None => None
  | Some q_lat =>
      let p_lat := deg2rad (snd d_coord) + tf_arctan tf q_lat in
      match pydiv (height * tf_tan tf (deg2rad theta)
                   * tf_sin tf (deg2rad phi))
                  (earth_radius_at_lat (snd d_coord)) with
      | None => None
      | Some q_long =>
          let p_long := deg2rad (fst d_coord) + tf_arctan tf q_long in
          Some (rad2deg p_long, rad2deg p_lat)
      end
  end.

(** ** Rotations *)

Definition rotation_matrix (roll yaw pitch : R) : mat3 :=
  let roll_rad := deg2rad roll in
  let roll_matrix : mat3 :=
    ((tf_cos tf roll_rad, 0, tf_sin tf roll_rad),
     (0, 1, 0),
     (- tf_sin tf roll_rad, 0, tf_cos tf roll_rad)) in
  let yaw_rad := deg2rad yaw in
  let yaw_matrix : mat3 :=
    ((tf_cos tf yaw_rad, tf_sin tf yaw_rad, 0),
     (- tf_sin tf yaw_rad, tf_cos tf yaw_rad, 0),
     (0, 0, 1)) in
  let pitch_rad := deg2rad pitch in
  let pitch_matrix : mat3 :=
    ((1, 0, 0),
     (0, tf_cos tf pitch_rad, - tf_sin tf pitch_rad),
     (0, tf_sin tf pitch_rad, tf_cos tf pitch_rad)) in
  mat_dot yaw_matrix (mat_dot pitch_matrix roll_matrix).

Definition angular_to_spherical (theta phi : R) : vec3 :=
  let theta_rad := deg2rad theta in
  let phi_rad := deg2rad phi in
  (tf_sin tf theta_rad * tf_sin tf phi_rad,
   tf_sin tf theta_rad * tf_cos tf phi_rad,
   - tf_cos tf theta_rad).

Definition spherical_to_angular (coord : vec3) : R * R :=
  let '(item0, item1, item2) := coord in
  let phi := arctan2 item0 item1 in
  let theta := tf_arccos tf (- item2) in
  (rad2deg theta, pymod (rad2deg phi) 360).

Definition adjust_aim (s : ViewController) (theta phi : R) : R * R :=
  let inverse_rotation_matrix :=
    transpose (rotation_matrix (d_roll s) (d_yaw s) (d_pitch s)) in
  let aim_spherical := angular_to_spherical theta phi in
  let aim_spherical_adjusted := mat_vec inverse_rotation_matrix aim_spherical in
  spherical_to_angular aim_spherical_adjusted.

(** ** One turn of the loop of [main] *)

Definition snapshot_server (s : ViewController) : ViewController :=
  if server_write s then s
  else
    let s := set_server_write true s in
    let s := set_lock_on (lock_on_in s) s in
    let s := set_theta (theta_in s) s in
    let s := set_phi (phi_in s) s in
    set_server_write false s.

Definition snapshot_autopilot (s : ViewController) : ViewController :=
  if autopilot_write s then s
  else
    let s := set_autopilot_write true s in
    let s := set_d_roll (d_roll_in s) s in
    let s := set_d_pitch (d_pitch_in s) s in
    let s := set_d_yaw (d_yaw_in s) s in
    let s := set_d_height (d_height_in s) s in
    let s := set_d_coordinate (d_coordinate_in s) s in
    set_autopilot_write false s.

(** The assignments to [theta_final], [phi_final], [camera_pitch] and
    [camera_yaw], which both branches of the loop end with. *)
Definition aim_at (s : ViewController) (theta phi : R) : ViewController :=
  let '(theta_final', phi_final') := adjust_aim s theta phi in
  let s := set_theta_final theta_final' s in
  let s := set_phi_final phi_final' s in
  let s := set_camera_pitch (tf_sin tf (deg2rad (theta_final s))) s in
  set_camera_yaw (phi_final s) s.

(** The block run when [init_lock_on] is set: the target is captured. *)
Definition lock_on_capture (s : ViewController) : M ViewController :=
  if init_lock_on s then
    _ <- record_call (mkCapture (theta s) (phi s) (d_height s)
                                (d_coordinate s)) ;;
    c <- lift (point_to_coordinate (theta s) (phi s) (d_height s)
                                   (d_coordinate s)) ;;
    let s := set_aim_coordinate c s in
    ret (set_init_lock_on false s)
  else ret s.

(** The assignment to [camera_roll]. *)
Definition level_roll (s : ViewController) : ViewController :=
  set_camera_roll
    (- d_roll s * tf_cos tf (deg2rad (phi_final s))
     - d_pitch s * tf_sin tf (deg2rad (phi_final s))) s.

Definition main_cycle (s : ViewController) : M ViewController :=
  let s := snapshot_server s in
  let s := snapshot_autopilot s in
  s <- (if lock_on s then
          s <- lock_on_capture s ;;
          ' (theta_temp, phi_temp) <-
            lift (coordinate_to_point (d_coordinate s) (aim_coordinate s)
                                      (d_height s)) ;;
          ret (aim_at s theta_temp phi_temp)
        else ret (aim_at s (theta s) (phi s))) ;;
  ret (level_roll s).


(** ** Runs: setter calls and loop turns in the order they happen *)

Inductive event : Type :=
| ServerInput (theta phi : R) (lock_on : bool) (zoom_in : R)
| AutopilotInput (roll yaw pitch height lon lat : R)
| Cycle.

Definition step (e : event) (s : ViewController) : M ViewController :=
  match e with
  | ServerInput theta phi lock zoom_in =>
      ret (update_server_input s theta phi lock zoom_in)
  | AutopilotInput roll yaw pitch height lon lat =>
      ret (update_autopilot_input s roll yaw pitch height lon lat)
  | Cycle => main_cycle s
  end.

Fixpoint run (es : list event) (s : ViewController) : M ViewController :=
  match es with
  | [] => ret s
  | e :: es' => s' <- step e s ;; run es' s'
  end.

End Controller.

Arguments adjust_aim : simpl never.
Arguments coordinate_to_point : simpl never.
Arguments point_to_coordinate : simpl never.
Arguments earth_radius_at_lat : simpl never.

(** A sequence of calls of [update_server_input], each given by its
    four arguments. *)
Definition server_calls (cs : list (R * R * bool * R)) (s : ViewController)
    : ViewController :=
  fold_left
    (fun s c =>
       let '(theta, phi, lock, zoom_in) := c in
       update_server_input s theta phi lock zoom_in)
    cs s.

(** ** Vocabulary of the statements *)

(** Every operator publish of the run carries [lock_on = b]. *)
Definition held (b : bool) (e : event) : Prop :=
  match e with
  | ServerInput _ _ lock _ => lock = b
  | _ => True
  end.

(** A vehicle sample that cannot make a later division fail: its height
    is not zero and the earth radius at its latitude is not zero. *)
Definition safe_event (e : event) : Prop :=
  match e with
  | AutopilotInput _ _ _ height _ lat =>
      height <> 0 /\ earth_radius_at_lat lat <> 0
  | _ => True
  end.

(** No setter is half-way through a write, and the published vehicle
    sample cannot make a division fail. *)
Definition Safe (s : ViewController) : Prop :=
  server_write s = false /\ autopilot_write s = false /\
  d_height_in s <> 0 /\ earth_radius_at_lat (snd (d_coordinate_in s)) <> 0.

(** The attitude the loop works with is level. *)
Definition level (s : ViewController) : Prop :=
  d_roll s = 0 /\ d_yaw s = 0 /\ d_pitch s = 0.

(** The ranges the setters keep the stored aim, height and zoom in. *)
Definition in_range (s : ViewController) : Prop :=
  0 <= theta_in s < 90 /\ 0 <= theta s < 90 /\
  0 <= d_height_in s /\ 0 <= d_height s /\
  2 <= camera_zoom s <= 50.


(** * Properties *)

(** Case analysis on every test a setter or the loop makes, the
    comparisons of numbers first. *)
Ltac branch :=
  cbn;
  repeat (first
            [ match goal with
              | |- context [Rge_dec ?a ?b] => destruct (Rge_dec a b)
              | |- context [Rle_dec ?a ?b] => destruct (Rle_dec a b)
              | |- context [Rlt_dec ?a ?b] => destruct (Rlt_dec a b)
              | |- context [Req_dec_T ?a ?b] => destruct (Req_dec_T a b)
              end
            | match goal with
              | |- context [if ?b then _ else _] => destruct b
              end ];
          cbn).

(** ** The setters *)

Lemma update_server_input_flags s theta phi lock zoom_in :
  server_write (update_server_input s theta phi lock zoom_in) = server_write s
  /\ autopilot_write (update_server_input s theta phi lock zoom_in)
     = autopilot_write s.
Proof.
  unfold update_server_input.
  destruct (server_write s) eqn:E; [now rewrite E|].
  branch; auto.
Qed.

(** C3, as the code has it: a publish made while [server_write] is clear
    stores the clamped theta when its [lock_on] argument is false, and
    leaves the stored theta as it was when its [lock_on] argument is
    true. *)
Theorem update_server_input_theta s theta phi lock zoom_in :
  server_write s = false ->
  let s' := update_server_input s theta phi lock zoom_in in
  (lock = false ->
     (theta < 0 -> theta_in s' = 0) /\
     (theta >= 90 -> theta_in s' = 89) /\
     (0 <= theta < 90 -> theta_in s' = theta)) /\
  (lock = true -> theta_in s' = theta_in s).
Proof.
  intros Hw s'. subst s'. unfold update_server_input. rewrite Hw.
  split; intros ->; branch; repeat split; intros; try reflexivity; lra.
Qed.

Lemma update_server_input_theta_witness :
  theta_in (update_server_input init 95 10 false 2) = 89 /\
  theta_in (update_server_input init (-5) 0 false 2) = 0 /\
  theta_in (update_server_input init 30 0 false 2) = 30 /\
  theta_in (update_server_input init 30 0 true 2) = theta_in init.
Proof.
  repeat split.
  - destruct (update_server_input_theta init 95 10 false 2 eq_refl)
      as [H _].
    destruct (H eq_refl) as (_ & H90 & _). apply H90. lra.
  - destruct (update_server_input_theta init (-5) 0 false 2 eq_refl)
      as [H _].
    destruct (H eq_refl) as (H0 & _ & _). apply H0. lra.
  - destruct (update_server_input_theta init 30 0 false 2 eq_refl)
      as [H _].
    destruct (H eq_refl) as (_ & _ & Hin). apply Hin. lra.
  - destruct (update_server_input_theta init 30 0 true 2 eq_refl)
      as [_ H].
    exact (H eq_refl).
Defined.

(** C3 as stated fails: with the flag clear, a publish of theta = 45
    together with [lock_on = true] stores neither 45 nor a clamped
    value; the stored theta stays 0. *)
Lemma update_server_input_theta_locked_counterexample :
  server_write init = false /\
  ~ 45 < 0 /\ ~ 45 >= 90 /\
  theta_in (update_server_input init 45 0 true 2) <> 45.
Proof.
  repeat split; try lra.
  replace (theta_in (update_server_input init 45 0 true 2)) with 0.
  - lra.
  - unfold update_server_input. branch; lra || reflexivity.
Qed.

(** C7: the zoom starts at 2, stays within [2,50] whatever calls of
    [update_server_input] are made, is left alone by a call whose
    [zoom_in] is out of range and is set by a call whose [zoom_in] is in
    range. *)
Theorem camera_zoom_invariant (cs : list (R * R * bool * R)) :
  camera_zoom init = 2 /\
  let s := server_calls cs init in
  2 <= camera_zoom s <= 50 /\
  forall theta phi lock zoom_in,
    (~ 2 <= zoom_in <= 50 ->
       camera_zoom (update_server_input s theta phi lock zoom_in)
       = camera_zoom s) /\
    (2 <= zoom_in <= 50 ->
       camera_zoom (update_server_input s theta phi lock zoom_in) = zoom_in).
Proof.
  split; [reflexivity|].
  assert (Inv : forall cs s, server_write s = false ->
                  2 <= camera_zoom s <= 50 ->
                  server_write (server_calls cs s) = false /\
                  2 <= camera_zoom (server_calls cs s) <= 50).
  { clear cs. induction cs as [|[[[th ph] lk] z] cs IH]; intros s Hw Hz.
    - now split.
    - cbn [server_calls fold_left]. apply IH.
      + destruct (update_server_input_flags s th ph lk z) as [-> _]; exact Hw.
      + unfold update_server_input. rewrite Hw. branch; lra. }
  destruct (Inv cs init eq_refl) as [Hw Hz]; [cbn; lra|].
  cbn zeta. split; [exact Hz|].
  intros theta phi lock zoom_in. unfold update_server_input. rewrite Hw.
  split; intros H; branch; lra || reflexivity.
Qed.

Lemma camera_zoom_invariant_witness :
  let s := server_calls [(0, 0, false, 7)] init in
  camera_zoom (update_server_input s 0 0 false 1) = camera_zoom s /\
  camera_zoom (update_server_input s 0 0 false 100) = camera_zoom s /\
  camera_zoom (update_server_input s 0 0 false 33) = 33.
Proof.
  destruct (camera_zoom_invariant [(0, 0, false, 7)]) as [_ [_ H]].
  repeat split.
  - apply (H 0 0 false 1). lra.
  - apply (H 0 0 false 100). lra.
  - apply (H 0 0 false 33). lra.
Defined.

(** C9: a vehicle sample with a negative height, published while
    [autopilot_write] is clear, stores roll, pitch and yaw in degrees and
    the coordinate, and keeps the stored height; nothing else changes. *)
Theorem update_autopilot_input_negative_height
    s roll yaw pitch height lon lat :
  autopilot_write s = false ->
  height < 0 ->
  let s' := update_autopilot_input s roll yaw pitch height lon lat in
  d_roll_in s' = rad2deg roll /\
  d_pitch_in s' = rad2deg pitch /\
  d_yaw_in s' = rad2deg yaw /\
  d_coordinate_in s' = (lon, lat) /\
  d_height_in s' = d_height_in s /\
  s' = set_d_coordinate_in (lon, lat)
         (set_d_yaw_in (rad2deg yaw)
            (set_d_pitch_in (rad2deg pitch)
               (set_d_roll_in (rad2deg roll) s))).
Proof.
  intros Hw Hh s'. subst s'. unfold update_autopilot_input. rewrite Hw.
  destruct (Rge_dec height 0) as [Hge|_]; [lra|].
  destruct s; cbn in *. subst. repeat split.
Qed.

Lemma update_autopilot_input_negative_height_witness :
  let s' := update_autopilot_input init 1 2 3 (-4) 5 6 in
  d_roll_in s' = rad2deg 1 /\
  d_coordinate_in s' = (5, 6) /\
  d_height_in s' = 1.
Proof.
  destruct (update_autopilot_input_negative_height init 1 2 3 (-4) 5 6)
    as (Hr & _ & _ & Hc & Hh & _); [reflexivity | lra |].
  cbn zeta. rewrite Hr, Hc, Hh. repeat split.
Defined.

(** ** The loop *)

Lemma bind_ret_l {A B : Type} (a : A) (k : A -> M B) :
  bind (ret a) k = k a.
Proof.
  unfold bind, ret. destruct (k a) as [[b l]|]; reflexivity.
Qed.

Lemma bind_assoc {A B C : Type} (m : M A) (k : A -> M B) (h : B -> M C) :
  bind (bind m k) h = bind m (fun a => bind (k a) h).
Proof.
  unfold bind. destruct m as [[a l1]|]; [|reflexivity].
  destruct (k a) as [[b l2]|]; [|reflexivity].
  destruct (h b) as [[c l3]|]; [|reflexivity].
  now rewrite app_assoc.
Qed.

Lemma bind_Some {A B : Type} (m : M A) (k : A -> M B) (b : B)
    (l : list capture) :
  bind m k = Some (b, l) <->
  exists a l1 l2, m = Some (a, l1) /\ k a = Some (b, l2) /\ l = l1 ++ l2.
Proof.
  unfold bind. split.
  - destruct m as [[a l1]|]; [|discriminate].
    destruct (k a) as [[b' l2]|] eqn:E; [|discriminate].
    intros [= <- <-]. now exists a, l1, l2.
  - intros (a & l1 & l2 & -> & -> & ->). reflexivity.
Qed.

Section Loop.

Variable tf : TaylorMath.

Lemma run_app (es1 es2 : list event) (s : ViewController) :
  run tf (es1 ++ es2) s = bind (run tf es1 s) (run tf es2).
Proof.
  revert s. induction es1 as [|e es1 IH]; intros s; cbn [run app].
  - now rewrite bind_ret_l.
  - rewrite bind_assoc. destruct (step tf e s) as [[s' l]|]; [|reflexivity].
    cbn [bind]. now rewrite IH.
Qed.

Lemma aim_at_eq (s : ViewController) (theta phi : R) :
  aim_at tf s theta phi =
  let a := adjust_aim tf s theta phi in
  set_camera_yaw (snd a)
    (set_camera_pitch (tf_sin tf (deg2rad (fst a)))
       (set_phi_final (snd a) (set_theta_final (fst a) s))).
Proof.
  unfold aim_at. destruct (adjust_aim tf s theta phi); reflexivity.
Qed.

(** The capture block either does nothing, or calls
    [point_to_coordinate] once, on the loop's working values, and stores
    what it returns. *)
Lemma lock_on_capture_Some (s s' : ViewController) (log : list capture) :
  lock_on_capture tf s = Some (s', log) <->
  (init_lock_on s = false /\ s' = s /\ log = []) \/
  (init_lock_on s = true /\
   exists c,
     point_to_coordinate tf (theta s) (phi s) (d_height s) (d_coordinate s)
     = Some c /\
     s' = set_init_lock_on false (set_aim_coordinate c s) /\
     log = [mkCapture (theta s) (phi s) (d_height s) (d_coordinate s)]).
Proof.
  unfold lock_on_capture. destruct (init_lock_on s).
  - unfold record_call, lift, bind, ret.
    destruct (point_to_coordinate tf (theta s) (phi s) (d_height s)
                (d_coordinate s)) as [c|].
    + split.
      * intros [= <- <-]. right. split; [reflexivity|]. now exists c.
      * intros [(H & _)|(_ & c' & [= <-] & -> & ->)];
          [discriminate | reflexivity].
    + split; [discriminate|].
      intros [(H & _)|(_ & c' & H & _)]; discriminate.
  - unfold ret. split.
    + intros [= <- <-]. now left.
    + intros [(_ & -> & ->)|(H & _)]; [reflexivity | discriminate].
Qed.

(** A turn of the loop, by the mode it runs in. *)
Lemma main_cycle_Some (s s' : ViewController) (log : list capture) :
  main_cycle tf s = Some (s', log) <->
  let s0 := snapshot_autopilot (snapshot_server s) in
  (lock_on s0 = false /\ log = [] /\
   s' = level_roll tf (aim_at tf s0 (theta s0) (phi s0))) \/
  (lock_on s0 = true /\
   exists s1 theta_temp phi_temp,
     lock_on_capture tf s0 = Some (s1, log) /\
     coordinate_to_point tf (d_coordinate s1) (aim_coordinate s1)
                         (d_height s1)
     = Some (theta_temp, phi_temp) /\
     s' = level_roll tf (aim_at tf s1 theta_temp phi_temp)).
Proof.
  unfold main_cycle. cbn zeta.
  set (s0 := snapshot_autopilot (snapshot_server s)).
  destruct (lock_on s0).
  - split.
    + intros H. right. split; [reflexivity|].
      apply bind_Some in H. destruct H as (s2 & l1 & l2 & H & [= <- <-] & ->).
      apply bind_Some in H. destruct H as (s1 & l3 & l4 & Hc & H & ->).
      apply bind_Some in H. destruct H as ([tt pt] & l5 & l6 & Hp & H & ->).
      cbn in H. injection H as <- <-.
      destruct (coordinate_to_point tf (d_coordinate s1) (aim_coordinate s1)
                  (d_height s1)) as [[tt' pt']|] eqn:E; [|discriminate].
      cbn in Hp. injection Hp as <- <- <-.
      exists s1, tt', pt'. rewrite !app_nil_r. auto.
    + intros [(H & _)|(_ & s1 & tt & pt & Hc & Hp & ->)]; [discriminate|].
      rewrite Hc. cbn. rewrite Hp. cbn. now rewrite !app_nil_r.
  - split.
    + intros H. left. cbn in H. injection H as <- <-. auto.
    + intros [(_ & -> & ->)|(H & _)]; [reflexivity | discriminate].
Qed.

(** What a turn of the loop leaves alone: everything the setters
    publish. *)
Lemma main_cycle_frame (s s' : ViewController) (log : list capture) :
  main_cycle tf s = Some (s', log) ->
  server_write s' = server_write s /\
  autopilot_write s' = autopilot_write s /\
  lock_on_in s' = lock_on_in s /\
  theta_in s' = theta_in s /\
  phi_in s' = phi_in s /\
  d_height_in s' = d_height_in s /\
  d_coordinate_in s' = d_coordinate_in s /\
  camera_zoom s' = camera_zoom s.
Proof.
  intros H. apply main_cycle_Some in H. cbn zeta in H.
  assert (F : forall s1 : ViewController,
             server_write s1 = server_write s ->
             autopilot_write s1 = autopilot_write s ->
             lock_on_in s1 = lock_on_in s -> theta_in s1 = theta_in s ->
             phi_in s1 = phi_in s -> d_height_in s1 = d_height_in s ->
             d_coordinate_in s1 = d_coordinate_in s ->
             camera_zoom s1 = camera_zoom s ->
             forall t p,
               let s2 := level_roll tf (aim_at tf s1 t p) in
               server_write s2 = server_write s /\
               autopilot_write s2 = autopilot_write s /\
               lock_on_in s2 = lock_on_in s /\ theta_in s2 = theta_in s /\
               phi_in s2 = phi_in s /\ d_height_in s2 = d_height_in s /\
               d_coordinate_in s2 = d_coordinate_in s /\
               camera_zoom s2 = camera_zoom s).
  { intros s1 ? ? ? ? ? ? ? ? t p. rewrite aim_at_eq. cbn. tauto. }
  assert (S0 : let s0 := snapshot_autopilot (snapshot_server s) in
               server_write s0 = server_write s /\
               autopilot_write s0 = autopilot_write s /\
               lock_on_in s0 = lock_on_in s /\ theta_in s0 = theta_in s /\
               phi_in s0 = phi_in s /\ d_height_in s0 = d_height_in s /\
               d_coordinate_in s0 = d_coordinate_in s /\
               camera_zoom s0 = camera_zoom s).
  { unfold snapshot_autopilot, snapshot_server.
    destruct (server_write s) eqn:Hs, (autopilot_write s) eqn:Ha;
      cbn; rewrite ?Hs, ?Ha; cbn; rewrite ?Hs, ?Ha; tauto. }
  cbn zeta in S0. destruct S0 as (A1 & A2 & A3 & A4 & A5 & A6 & A7 & A8).
  destruct H as [(_ & _ & ->)|(_ & s1 & t & p & Hc & _ & ->)].
  - now apply F.
  - apply lock_on_capture_Some in Hc.
    destruct Hc as [(_ & -> & _)|(_ & c & _ & -> & _)]; now apply F.
Qed.



(** In direct mode a turn of the loop always completes, and captures
    nothing. *)
Lemma main_cycle_direct (s : ViewController) :
  lock_on (snapshot_autopilot (snapshot_server s)) = false ->
  exists s', main_cycle tf s = Some (s', []).
Proof.
  intros H. eexists. apply main_cycle_Some. left. cbn zeta. now rewrite H.
Qed.

End Loop.


(** ** Lock-on: when the target is captured *)

(** Each conjunct of the goal is a hypothesis or follows from the
    equations at hand. *)
Ltac conjuncts :=
  repeat (split; [solve [auto | congruence]|]); solve [auto | congruence].

Section LockOn.

Variable tf : TaylorMath.

Lemma coordinate_to_point_defined (c1 c2 : coord) (h : R) :
  h <> 0 -> exists r, coordinate_to_point tf c1 c2 h = Some r.
Proof.
  intros Hh. unfold coordinate_to_point, pydiv.
  destruct (Req_dec_T h 0); [contradiction|]. eexists; reflexivity.
Qed.

Lemma point_to_coordinate_defined (theta phi h : R) (c : coord) :
  earth_radius_at_lat (snd c) <> 0 ->
  exists r, point_to_coordinate tf theta phi h c = Some r.
Proof.
  intros Hr. unfold point_to_coordinate, pydiv.
  destruct (Req_dec_T (earth_radius_at_lat (snd c)) 0); [contradiction|].
  eexists; reflexivity.
Qed.

(** The loop's working copy after both snapshots, flags clear. *)
Lemma snapshot_fields (s : ViewController) :
  server_write s = false -> autopilot_write s = false ->
  let s0 := snapshot_autopilot (snapshot_server s) in
  lock_on s0 = lock_on_in s /\ theta s0 = theta_in s /\ phi s0 = phi_in s /\
  d_height s0 = d_height_in s /\ d_coordinate s0 = d_coordinate_in s /\
  init_lock_on s0 = init_lock_on s /\ aim_coordinate s0 = aim_coordinate s.
Proof.
  intros Hs Ha. unfold snapshot_autopilot, snapshot_server.
  rewrite Hs. cbn. rewrite Ha. cbn. repeat split.
Qed.

Lemma Safe_frame (s s' : ViewController) :
  server_write s' = server_write s ->
  autopilot_write s' = autopilot_write s ->
  d_height_in s' = d_height_in s ->
  d_coordinate_in s' = d_coordinate_in s ->
  Safe s -> Safe s'.
Proof. unfold Safe. now intros -> -> -> ->. Qed.

Lemma main_cycle_Safe (s s' : ViewController) (log : list capture) :
  main_cycle tf s = Some (s', log) -> Safe s ->
  Safe s' /\ lock_on_in s' = lock_on_in s /\
  theta_in s' = theta_in s /\ phi_in s' = phi_in s.
Proof.
  intros H HS. apply main_cycle_frame in H.
  destruct H as (F1 & F2 & F3 & F4 & F5 & F6 & F7 & _).
  split; [now apply (Safe_frame s)|]. auto.
Qed.

(** A publish of the operator keeps the state safe; it arms the capture
    exactly on a rising edge of [lock_on] and never touches the target. *)
Lemma update_server_input_lock (s : ViewController)
    (theta phi : R) (lock : bool) (zoom_in : R) :
  Safe s ->
  let s' := update_server_input s theta phi lock zoom_in in
  Safe s' /\ lock_on_in s' = lock /\
  init_lock_on s'
  = (if lock && negb (lock_on_in s) then true else init_lock_on s) /\
  aim_coordinate s' = aim_coordinate s /\
  (lock = true -> theta_in s' = theta_in s /\ phi_in s' = phi_in s).
Proof.
  intros (Hs & Ha & Hh & Hr). unfold Safe, update_server_input.
  rewrite Hs. cbn. destruct lock; cbn; destruct (lock_on_in s) eqn:El;
    branch; rewrite ?El; repeat split; auto; discriminate.
Qed.

(** A vehicle sample that is safe keeps the state safe and touches
    nothing of the lock-on state or of the operator's aim. *)
Lemma update_autopilot_input_lock (s : ViewController)
    (roll yaw pitch height lon lat : R) :
  Safe s -> safe_event (AutopilotInput roll yaw pitch height lon lat) ->
  let s' := update_autopilot_input s roll yaw pitch height lon lat in
  Safe s' /\ lock_on_in s' = lock_on_in s /\
  init_lock_on s' = init_lock_on s /\
  aim_coordinate s' = aim_coordinate s /\
  theta_in s' = theta_in s /\ phi_in s' = phi_in s.
Proof.
  intros (Hs & Ha & Hh & Hr) [Hh' Hr']. unfold Safe, update_autopilot_input.
  rewrite Ha. branch; repeat split; auto.
Qed.

(** Direct mode: a turn completes, captures nothing, leaves the pending
    capture flag and the target as they are. *)
Lemma cycle_direct (s : ViewController) :
  Safe s -> lock_on_in s = false ->
  exists s',
    main_cycle tf s = Some (s', []) /\ Safe s' /\ lock_on_in s' = false /\
    init_lock_on s' = init_lock_on s /\ aim_coordinate s' = aim_coordinate s.
Proof.
  intros HS Hl. pose proof HS as (Hs & Ha & _).
  destruct (snapshot_fields s Hs Ha) as (S1 & _ & _ & _ & _ & S6 & S7).
  set (s0 := snapshot_autopilot (snapshot_server s)) in *.
  exists (level_roll tf (aim_at tf s0 (theta s0) (phi s0))).
  assert (H : main_cycle tf s
              = Some (level_roll tf (aim_at tf s0 (theta s0) (phi s0)), [])).
  { apply main_cycle_Some. left. fold s0. rewrite S1, Hl. auto. }
  split; [exact H|].
  destruct (main_cycle_Safe _ _ _ H HS) as (HS' & Hl' & _).
  split; [exact HS'|]. split; [congruence|].
  rewrite aim_at_eq. cbn. auto.
Qed.

(** Lock-on mode with no capture pending: a turn completes, calls
    [point_to_coordinate] not at all and leaves the target as it is. *)
Lemma cycle_locked (s : ViewController) :
  Safe s -> lock_on_in s = true -> init_lock_on s = false ->
  exists s',
    main_cycle tf s = Some (s', []) /\ Safe s' /\ lock_on_in s' = true /\
    init_lock_on s' = false /\ aim_coordinate s' = aim_coordinate s.
Proof.
  intros HS Hl Hi. pose proof HS as (Hs & Ha & Hh & _).
  destruct (snapshot_fields s Hs Ha) as (S1 & _ & _ & S4 & _ & S6 & S7).
  set (s0 := snapshot_autopilot (snapshot_server s)) in *.
  destruct (coordinate_to_point_defined (d_coordinate s0) (aim_coordinate s0)
              (d_height s0)) as [[t p] Hp]; [congruence|].
  exists (level_roll tf (aim_at tf s0 t p)).
  assert (H : main_cycle tf s = Some (level_roll tf (aim_at tf s0 t p), [])).
  { apply main_cycle_Some. right. fold s0. split; [congruence|].
    exists s0, t, p. split; [|auto].
    apply lock_on_capture_Some. left. split; [congruence|auto]. }
  split; [exact H|].
  destruct (main_cycle_Safe _ _ _ H HS) as (HS' & Hl' & _).
  split; [exact HS'|]. split; [congruence|].
  rewrite aim_at_eq. cbn. split; congruence.
Qed.

(** Lock-on mode with a capture pending: the turn completes, calls
    [point_to_coordinate] once, on the aim, height and coordinate
    published when the turn starts, and stores the result as target. *)
Lemma cycle_capture (s : ViewController) :
  Safe s -> lock_on_in s = true -> init_lock_on s = true ->
  exists s' c,
    main_cycle tf s = Some (s', [c]) /\
    c = mkCapture (theta_in s) (phi_in s) (d_height_in s)
                  (d_coordinate_in s) /\
    point_to_coordinate tf (cap_theta c) (cap_phi c) (cap_height c)
                        (cap_coordinate c)
    = Some (aim_coordinate s') /\
    Safe s' /\ lock_on_in s' = true /\ init_lock_on s' = false.
Proof.
  intros HS Hl Hi. pose proof HS as (Hs & Ha & Hh & Hr).
  destruct (snapshot_fields s Hs Ha) as (S1 & S2 & S3 & S4 & S5 & S6 & S7).
  set (s0 := snapshot_autopilot (snapshot_server s)) in *.
  destruct (point_to_coordinate_defined (theta s0) (phi s0) (d_height s0)
              (d_coordinate s0)) as [c Hc]; [congruence|].
  set (s1 := set_init_lock_on false (set_aim_coordinate c s0)).
  destruct (coordinate_to_point_defined (d_coordinate s1) (aim_coordinate s1)
              (d_height s1)) as [[t p] Hp]; [cbn; congruence|].
  exists (level_roll tf (aim_at tf s1 t p)),
         (mkCapture (theta s0) (phi s0) (d_height s0) (d_coordinate s0)).
  assert (H : main_cycle tf s
              = Some (level_roll tf (aim_at tf s1 t p),
                      [mkCapture (theta s0) (phi s0) (d_height s0)
                                 (d_coordinate s0)])).
  { apply main_cycle_Some. right. fold s0. split; [congruence|].
    exists s1, t, p. split; [|auto].
    apply lock_on_capture_Some. right. split; [congruence|].
    exists c. auto. }
  split; [exact H|].
  destruct (main_cycle_Safe _ _ _ H HS) as (HS' & Hl' & _).
  split; [congruence|].
  split; [cbn [cap_theta cap_phi cap_height cap_coordinate];
          rewrite aim_at_eq; cbn; exact Hc|].
  split; [exact HS'|]. split; [congruence|].
  rewrite aim_at_eq. reflexivity.
Qed.

Lemma run_cons (e : event) (es : list event) (s : ViewController) :
  run tf (e :: es) s = bind (step tf e s) (run tf es).
Proof. reflexivity. Qed.

Lemma run_cycle_Some (es : list event) (s s1 s' : ViewController)
    (l1 l2 : list capture) :
  main_cycle tf s = Some (s1, l1) -> run tf es s1 = Some (s', l2) ->
  run tf (Cycle :: es) s = Some (s', l1 ++ l2).
Proof.
  intros H1 H2. cbn [run step]. rewrite H1. cbn [bind]. now rewrite H2.
Qed.

(** A locked session whose target is captured: whatever is published
    with [lock_on] held true, and however many turns the loop makes, no
    further capture happens and the target stays. *)
Lemma run_locked (tr : list event) :
  forall s : ViewController,
    Safe s -> lock_on_in s = true -> init_lock_on s = false ->
    Forall (held true) tr -> Forall safe_event tr ->
    exists s',
      run tf tr s = Some (s', []) /\ Safe s' /\ lock_on_in s' = true /\
      init_lock_on s' = false /\ aim_coordinate s' = aim_coordinate s.
Proof.
  induction tr as [|e tr IH]; intros s HS Hl Hi Hh Hsafe.
  - exists s. cbn. auto.
  - inversion Hh as [|? ? He Hh']; subst.
    inversion Hsafe as [|? ? Hse Hsafe']; subst.
    destruct e as [theta phi lock zoom_in|roll yaw pitch height lon lat|].
    + cbn in He. subst lock.
      destruct (update_server_input_lock s theta phi true zoom_in HS)
        as (HS1 & Hl1 & Hi1 & Ha1 & _).
      rewrite Hl in Hi1. cbn in Hi1.
      destruct (IH _ HS1 Hl1 (eq_trans Hi1 Hi) Hh' Hsafe')
        as (s' & Hrun & ? & ? & ? & Haim).
      exists s'. cbn [run step]. rewrite bind_ret_l. conjuncts.
    + destruct (update_autopilot_input_lock s roll yaw pitch height lon lat
                  HS Hse) as (HS1 & Hl1 & Hi1 & Ha1 & _).
      destruct (IH _ HS1 (eq_trans Hl1 Hl) (eq_trans Hi1 Hi) Hh' Hsafe')
        as (s' & Hrun & ? & ? & ? & Haim).
      exists s'. cbn [run step]. rewrite bind_ret_l. conjuncts.
    + destruct (cycle_locked s HS Hl Hi) as (s1 & Hc & HS1 & Hl1 & Hi1 & Ha1).
      destruct (IH _ HS1 Hl1 Hi1 Hh' Hsafe')
        as (s' & Hrun & ? & ? & ? & Haim).
      exists s'. rewrite (run_cycle_Some _ _ _ _ _ _ Hc Hrun). conjuncts.
Qed.

(** Direct mode: whatever is published with [lock_on] held false, no
    capture happens. *)
Lemma run_direct (tr : list event) :
  forall s : ViewController,
    Safe s -> lock_on_in s = false -> init_lock_on s = false ->
    Forall (held false) tr -> Forall safe_event tr ->
    exists s',
      run tf tr s = Some (s', []) /\ Safe s' /\ lock_on_in s' = false /\
      init_lock_on s' = false /\ aim_coordinate s' = aim_coordinate s.
Proof.
  induction tr as [|e tr IH]; intros s HS Hl Hi Hh Hsafe.
  - exists s. cbn. auto.
  - inversion Hh as [|? ? He Hh']; subst.
    inversion Hsafe as [|? ? Hse Hsafe']; subst.
    destruct e as [theta phi lock zoom_in|roll yaw pitch height lon lat|].
    + cbn in He. subst lock.
      destruct (update_server_input_lock s theta phi false zoom_in HS)
        as (HS1 & Hl1 & Hi1 & Ha1 & _).
      cbn in Hi1.
      destruct (IH _ HS1 Hl1 (eq_trans Hi1 Hi) Hh' Hsafe')
        as (s' & Hrun & ? & ? & ? & Haim).
      exists s'. cbn [run step]. rewrite bind_ret_l. conjuncts.
    + destruct (update_autopilot_input_lock s roll yaw pitch height lon lat
                  HS Hse) as (HS1 & Hl1 & Hi1 & Ha1 & _).
      destruct (IH _ HS1 (eq_trans Hl1 Hl) (eq_trans Hi1 Hi) Hh' Hsafe')
        as (s' & Hrun & ? & ? & ? & Haim).
      exists s'. cbn [run step]. rewrite bind_ret_l. conjuncts.
    + destruct (cycle_direct s HS Hl) as (s1 & Hc & HS1 & Hl1 & Hi1 & Ha1).
      destruct (IH _ HS1 Hl1 (eq_trans Hi1 Hi) Hh' Hsafe')
        as (s' & Hrun & ? & ? & ? & Haim).
      exists s'. rewrite (run_cycle_Some _ _ _ _ _ _ Hc Hrun). conjuncts.
Qed.

(** A capture is pending and the loop has not turned yet: publishes with
    [lock_on] held true keep it pending and keep the operator's aim. *)
Lemma run_pending (tr : list event) :
  forall s : ViewController,
    Safe s -> lock_on_in s = true -> init_lock_on s = true ->
    Forall (held true) tr -> Forall safe_event tr -> ~ In Cycle tr ->
    exists s',
      run tf tr s = Some (s', []) /\ Safe s' /\ lock_on_in s' = true /\
      init_lock_on s' = true /\
      theta_in s' = theta_in s /\ phi_in s' = phi_in s.
Proof.
  induction tr as [|e tr IH]; intros s HS Hl Hi Hh Hsafe Hnc.
  - exists s. cbn. auto 6.
  - inversion Hh as [|? ? He Hh']; subst.
    inversion Hsafe as [|? ? Hse Hsafe']; subst.
    assert (Hnc' : ~ In Cycle tr) by (intros F; apply Hnc; now right).
    destruct e as [theta phi lock zoom_in|roll yaw pitch height lon lat|].
    + cbn in He. subst lock.
      destruct (update_server_input_lock s theta phi true zoom_in HS)
        as (HS1 & Hl1 & Hi1 & Ha1 & Haim).
      destruct (Haim eq_refl) as [Ht Hp].
      rewrite Hl in Hi1. cbn in Hi1.
      destruct (IH _ HS1 Hl1 (eq_trans Hi1 Hi) Hh' Hsafe' Hnc')
        as (s' & Hrun & ? & ? & ? & ? & ?).
      exists s'. cbn [run step]. rewrite bind_ret_l. conjuncts.
    + destruct (update_autopilot_input_lock s roll yaw pitch height lon lat
                  HS Hse) as (HS1 & Hl1 & Hi1 & Ha1 & Ht & Hp).
      destruct (IH _ HS1 (eq_trans Hl1 Hl) (eq_trans Hi1 Hi) Hh' Hsafe' Hnc')
        as (s' & Hrun & ? & ? & ? & ? & ?).
      exists s'. cbn [run step]. rewrite bind_ret_l. conjuncts.
    + exfalso. apply Hnc. now left.
Qed.

(** A locked session from the publish that arms it: the first turn of
    the loop captures, once, and nothing after it does. *)
Lemma run_session (pre post : list event) (s : ViewController) :
  Safe s -> lock_on_in s = true -> init_lock_on s = true ->
  Forall (held true) (pre ++ Cycle :: post) ->
  Forall safe_event (pre ++ Cycle :: post) ->
  ~ In Cycle pre ->
  exists s1 s' c,
    run tf pre s = Some (s1, []) /\
    run tf (pre ++ Cycle :: post) s = Some (s', [c]) /\
    c = mkCapture (theta_in s1) (phi_in s1) (d_height_in s1)
                  (d_coordinate_in s1) /\
    theta_in s1 = theta_in s /\ phi_in s1 = phi_in s /\
    point_to_coordinate tf (cap_theta c) (cap_phi c) (cap_height c)
                        (cap_coordinate c)
    = Some (aim_coordinate s') /\
    Safe s' /\ lock_on_in s' = true /\ init_lock_on s' = false.
Proof.
  intros HS Hl Hi Hh Hsafe Hnc.
  apply Forall_app in Hh. destruct Hh as [Hh1 Hh2].
  apply Forall_app in Hsafe. destruct Hsafe as [Hs1 Hs2].
  inversion Hh2 as [|? ? _ Hh3]; subst.
  inversion Hs2 as [|? ? _ Hs3]; subst.
  destruct (run_pending pre s HS Hl Hi Hh1 Hs1 Hnc)
    as (s1 & Hr1 & HS1 & Hl1 & Hi1 & Ht1 & Hp1).
  destruct (cycle_capture s1 HS1 Hl1 Hi1)
    as (s2 & c & Hc & Ec & Hp & HS2 & Hl2 & Hi2).
  destruct (run_locked post s2 HS2 Hl2 Hi2 Hh3 Hs3)
    as (s' & Hr3 & HS' & Hl' & Hi' & Haim).
  exists s1, s', c. split; [exact Hr1|].
  split.
  { rewrite run_app, Hr1. cbn [bind app].
    now rewrite (run_cycle_Some _ _ _ _ _ _ Hc Hr3). }
  rewrite Haim. auto 10.
Qed.

End LockOn.

Section CaptureOnce.

Variable tf : TaylorMath.

(** C2, as the code has it: the target is captured on the rising edge
    of [lock_on], once per locked session, when the loop turns while
    [lock_on] is held true.
    (1) After [lock_on] is published false and then true, and whatever
    else is published with [lock_on] held true, the first turn of the
    loop calls [point_to_coordinate] on the aim, height and coordinate
    published at that turn and stores the result in [aim_coordinate];
    no later turn calls it or changes [aim_coordinate].
    (2) Publishing true, false and true again, the loop turning at least
    once while each true is held, gives exactly two captures.
    (3) Once captured, no run with [lock_on] held true captures again or
    changes [aim_coordinate]. *)
Theorem capture_once_per_locked_session :
  (forall (s : ViewController) theta1 phi1 zoom1 theta2 phi2 zoom2
          (pre post : list event),
      Safe s ->
      Forall (held true) (pre ++ Cycle :: post) ->
      Forall safe_event (pre ++ Cycle :: post) ->
      ~ In Cycle pre ->
      exists s1 s' c,
        run tf (ServerInput theta1 phi1 false zoom1
                  :: ServerInput theta2 phi2 true zoom2 :: pre) s
        = Some (s1, []) /\
        run tf (ServerInput theta1 phi1 false zoom1
                  :: ServerInput theta2 phi2 true zoom2
                  :: pre ++ Cycle :: post) s
        = Some (s', [c]) /\
        c = mkCapture (theta_in s1) (phi_in s1) (d_height_in s1)
                      (d_coordinate_in s1) /\
        point_to_coordinate tf (theta_in s1) (phi_in s1) (d_height_in s1)
                            (d_coordinate_in s1)
        = Some (aim_coordinate s')) /\
  (forall (s : ViewController) theta1 phi1 zoom1 theta2 phi2 zoom2
          theta3 phi3 zoom3 (pre1 post1 mid pre3 post3 : list event),
      Safe s -> lock_on_in s = false ->
      Forall (held true) (pre1 ++ Cycle :: post1) ->
      Forall safe_event (pre1 ++ Cycle :: post1) ->
      ~ In Cycle pre1 ->
      Forall (held false) mid -> Forall safe_event mid ->
      Forall (held true) (pre3 ++ Cycle :: post3) ->
      Forall safe_event (pre3 ++ Cycle :: post3) ->
      ~ In Cycle pre3 ->
      exists s' c1 c2,
        run tf (ServerInput theta1 phi1 true zoom1
                  :: (pre1 ++ Cycle :: post1)
                  ++ ServerInput theta2 phi2 false zoom2
                  :: mid
                  ++ ServerInput theta3 phi3 true zoom3
                  :: pre3 ++ Cycle :: post3) s
        = Some (s', [c1; c2]) /\
        point_to_coordinate tf (cap_theta c2) (cap_phi c2) (cap_height c2)
                            (cap_coordinate c2)
        = Some (aim_coordinate s')) /\
  (forall (s : ViewController) (tr : list event),
      Safe s -> lock_on_in s = true -> init_lock_on s = false ->
      Forall (held true) tr -> Forall safe_event tr ->
      exists s',
        run tf tr s = Some (s', []) /\
        aim_coordinate s' = aim_coordinate s).
Proof.
  split; [|split].
  - intros s theta1 phi1 zoom1 theta2 phi2 zoom2 pre post HS Hh Hsafe Hnc.
    destruct (update_server_input_lock s theta1 phi1 false zoom1 HS)
      as (HSa & Hla & _).
    set (sa := update_server_input s theta1 phi1 false zoom1) in *.
    destruct (update_server_input_lock sa theta2 phi2 true zoom2 HSa)
      as (HSb & Hlb & Hib & _).
    rewrite Hla in Hib. cbn in Hib.
    set (sb := update_server_input sa theta2 phi2 true zoom2) in *.
    destruct (run_session tf pre post sb HSb Hlb Hib Hh Hsafe Hnc)
      as (s1 & s' & c & Hr1 & Hr & Ec & _ & _ & Hp & _).
    exists s1, s', c. cbn [run step]. rewrite !bind_ret_l.
    fold sa. fold sb. rewrite Ec in Hp. cbn in Hp. auto.
  - intros s theta1 phi1 zoom1 theta2 phi2 zoom2 theta3 phi3 zoom3
           pre1 post1 mid pre3 post3 HS Hl Hh1 Hs1 Hn1 Hhm Hsm Hh3 Hs3 Hn3.
    destruct (update_server_input_lock s theta1 phi1 true zoom1 HS)
      as (HSa & Hla & Hia & _).
    rewrite Hl in Hia. cbn in Hia.
    set (sa := update_server_input s theta1 phi1 true zoom1) in *.
    destruct (run_session tf pre1 post1 sa HSa Hla Hia Hh1 Hs1 Hn1)
      as (_ & sb & c1 & _ & Hr1 & _ & _ & _ & _ & HSb & Hlb & Hib).
    destruct (update_server_input_lock sb theta2 phi2 false zoom2 HSb)
      as (HSc & Hlc & Hic & _).
    cbn in Hic. rewrite Hib in Hic.
    set (sc := update_server_input sb theta2 phi2 false zoom2) in *.
    destruct (run_direct tf mid sc HSc Hlc Hic Hhm Hsm)
      as (sd & Hrm & HSd & Hld & Hid & _).
    destruct (update_server_input_lock sd theta3 phi3 true zoom3 HSd)
      as (HSe & Hle & Hie & _).
    rewrite Hld in Hie. cbn in Hie.
    set (se := update_server_input sd theta3 phi3 true zoom3) in *.
    destruct (run_session tf pre3 post3 se HSe Hle Hie Hh3 Hs3 Hn3)
      as (_ & s' & c2 & _ & Hr3 & _ & _ & _ & Hp & _).
    exists s', c1, c2. split; [|exact Hp].
    cbn [run step]. rewrite bind_ret_l. fold sa.
    rewrite run_app, Hr1. cbn [bind run step]. rewrite bind_ret_l. fold sc.
    rewrite run_app, Hrm. cbn [bind run step]. rewrite bind_ret_l. fold se.
    rewrite Hr3. reflexivity.
  - intros s tr HS Hl Hi Hh Hsafe.
    destruct (run_locked tf tr s HS Hl Hi Hh Hsafe)
      as (s' & Hr & _ & _ & _ & Ha).
    exists s'. auto.
Qed.

(** The capture is coalesced when the loop does not turn while the first
    true is held: true, false and true published with no turn in between
    arm one capture only. *)
Lemma capture_coalesced_without_turn
    (s : ViewController) theta1 phi1 zoom1 theta2 phi2 zoom2
    theta3 phi3 zoom3 (post : list event) :
  Safe s -> lock_on_in s = false ->
  Forall (held true) post -> Forall safe_event post ->
  exists s' c,
    run tf (ServerInput theta1 phi1 true zoom1
              :: ServerInput theta2 phi2 false zoom2
              :: ServerInput theta3 phi3 true zoom3
              :: Cycle :: post) s
    = Some (s', [c]).
Proof.
  intros HS Hl Hh Hsafe.
  destruct (update_server_input_lock s theta1 phi1 true zoom1 HS)
    as (HSa & Hla & Hia & _).
  rewrite Hl in Hia. cbn in Hia.
  set (sa := update_server_input s theta1 phi1 true zoom1) in *.
  destruct (update_server_input_lock sa theta2 phi2 false zoom2 HSa)
    as (HSb & Hlb & Hib & _).
  cbn in Hib. rewrite Hia in Hib.
  set (sb := update_server_input sa theta2 phi2 false zoom2) in *.
  destruct (update_server_input_lock sb theta3 phi3 true zoom3 HSb)
    as (HSc & Hlc & Hic & _).
  rewrite Hlb in Hic. cbn in Hic.
  set (sc := update_server_input sb theta3 phi3 true zoom3) in *.
  assert (Hh' : Forall (held true) ([] ++ Cycle :: post))
    by (constructor; [exact I | exact Hh]).
  assert (Hsafe' : Forall safe_event ([] ++ Cycle :: post))
    by (constructor; [exact I | exact Hsafe]).
  destruct (run_session tf [] post sc HSc Hlc Hic Hh' Hsafe' (fun F => F))
    as (s1 & s' & c & _ & Hr & _).
  exists s', c.
  do 3 (rewrite run_cons; cbn [step]; rewrite bind_ret_l). exact Hr.
Qed.

(** With a stored height of 0 a turn of the loop in lock-on mode fails:
    [coordinate_to_point] divides by the height. *)
Lemma main_cycle_zero_height (s : ViewController) :
  server_write s = false -> autopilot_write s = false ->
  lock_on_in s = true -> d_height_in s = 0 ->
  main_cycle tf s = None.
Proof.
  intros Hs Ha Hl Hh.
  destruct (main_cycle tf s) as [[s' log]|] eqn:E; [exfalso|reflexivity].
  apply main_cycle_Some in E. cbn zeta in E.
  destruct (snapshot_fields s Hs Ha) as (S1 & _ & _ & S4 & _).
  set (s0 := snapshot_autopilot (snapshot_server s)) in *.
  destruct E as [(E & _)|(_ & s1 & t & p & Hc & Hp & _)]; [congruence|].
  assert (H1 : d_height s1 = 0).
  { apply lock_on_capture_Some in Hc.
    destruct Hc as [(_ & -> & _)|(_ & c & _ & -> & _)]; cbn; congruence. }
  rewrite H1 in Hp. unfold coordinate_to_point, pydiv in Hp.
  destruct (Req_dec_T 0 0) as [_|H]; [discriminate | now apply H].
Qed.

(** C4, on the code: a vehicle sample of height 0 is stored, and the
    next turn of the loop in lock-on mode divides by it and fails. *)
Theorem zero_height_is_stored_and_divides :
  d_height_in (update_autopilot_input init 0 0 0 0 0 0) = 0 /\
  run tf [AutopilotInput 0 0 0 0 0 0; ServerInput 0 0 true 2; Cycle] init
  = None.
Proof.
  split.
  - unfold update_autopilot_input. branch; lra || reflexivity.
  - do 2 (rewrite run_cons; cbn [step]; rewrite bind_ret_l).
    rewrite run_cons. cbn [step].
    rewrite main_cycle_zero_height; [reflexivity | | | |];
      unfold update_server_input, update_autopilot_input;
      branch; lra || reflexivity.
Qed.

End CaptureOnce.

(** C2 as stated fails: true, false and true published one after the
    other, with no turn of the loop in between, and then two turns with
    [lock_on] held true give one capture, not two. *)
Lemma capture_true_false_true_counterexample :
  (exists s' c,
      run tf_exact [ServerInput 0 0 true 2; ServerInput 0 0 false 2;
                    ServerInput 0 0 true 2; Cycle; Cycle] init
      = Some (s', [c])) /\
  ~ (exists s' c1 c2,
        run tf_exact [ServerInput 0 0 true 2; ServerInput 0 0 false 2;
                      ServerInput 0 0 true 2; Cycle; Cycle] init
        = Some (s', [c1; c2])).
Proof.
  assert (HS : Safe init).
  { unfold Safe, earth_radius_at_lat. cbn. repeat split; lra. }
  destruct (capture_coalesced_without_turn tf_exact init 0 0 2 0 0 2 0 0 2
              [Cycle] HS eq_refl
              ltac:(repeat constructor) ltac:(repeat constructor))
    as (s' & c & H).
  split; [now exists s', c|].
  intros (s'' & c1 & c2 & E). rewrite H in E. congruence.
Qed.

Lemma Safe_init : Safe init.
Proof.
  unfold Safe, earth_radius_at_lat. cbn. repeat split; lra.
Qed.

Lemma capture_once_per_locked_session_witness :
  (exists s' c,
      run tf_exact [ServerInput 30 90 false 2; ServerInput 0 0 true 2;
                    Cycle; Cycle; Cycle] init
      = Some (s', [c])) /\
  (exists s' c1 c2,
      run tf_exact [ServerInput 0 0 true 2; Cycle;
                    ServerInput 30 90 false 2; Cycle;
                    ServerInput 0 0 true 2; Cycle; Cycle] init
      = Some (s', [c1; c2])) /\
  (exists s',
      run tf_exact [Cycle; Cycle]
          (set_init_lock_on false (set_lock_on_in true init))
      = Some (s', [])).
Proof.
  destruct (capture_once_per_locked_session tf_exact) as (H1 & H2 & H3).
  split; [|split].
  - destruct (H1 init 30 90 2 0 0 2 [] [Cycle; Cycle] Safe_init
                ltac:(repeat constructor) ltac:(repeat constructor)
                ltac:(intros []))
      as (s1 & s' & c & _ & H & _).
    exists s', c. exact H.
  - destruct (H2 init 0 0 2 30 90 2 0 0 2 [] [] [Cycle] [] [Cycle] Safe_init
                eq_refl
                ltac:(repeat constructor) ltac:(repeat constructor)
                ltac:(intros [])
                ltac:(repeat constructor) ltac:(repeat constructor)
                ltac:(repeat constructor) ltac:(repeat constructor)
                ltac:(intros []))
      as (s' & c1 & c2 & H & _).
    exists s', c1, c2. exact H.
  - destruct (H3 (set_init_lock_on false (set_lock_on_in true init))
                 [Cycle; Cycle] Safe_init eq_refl eq_refl
                 ltac:(repeat constructor) ltac:(repeat constructor))
      as (s' & H & _).
    exists s'. exact H.
Defined.

(** ** Geodesy *)

Lemma pymod_0 (m : R) : pymod 0 m = 0.
Proof.
  unfold pymod, Rdiv. rewrite Rmult_0_l.
  rewrite <- (Int_part_spec 0 0) by (simpl; lra). simpl. lra.
Qed.

Lemma rad2deg_0 : rad2deg 0 = 0.
Proof. unfold rad2deg, Rdiv. apply Rmult_0_l. Qed.

Lemma deg2rad_0 : deg2rad 0 = 0.
Proof. unfold deg2rad. apply Rmult_0_r. Qed.

(** C8: the bearing and the angle from the vertical to the point the
    vehicle is over are both 0, for every coordinate and every height
    above 0, when [tf.tan] and [tf.arctan] vanish at 0: both offsets are
    exactly 0 and [np.arctan2] is not called. *)
Theorem coordinate_to_point_same_coordinate
    (tf : TaylorMath) (origin : coord) (height : R) :
  tf_tan tf 0 = 0 -> tf_arctan tf 0 = 0 -> 0 < height ->
  coordinate_to_point tf origin origin height = Some (0, 0).
Proof.
  intros Htan Hatan Hh. unfold coordinate_to_point. cbn [fst snd].
  replace (fst origin - fst origin) with 0 by lra.
  replace (snd origin - snd origin) with 0 by lra.
  rewrite deg2rad_0, Htan, Rmult_0_l.
  destruct (Req_dec_T 0 0) as [_|H]; [|now elim H].
  replace (0 ^ 2 + 0 ^ 2) with 0 by lra. rewrite sqrt_0.
  unfold pydiv. destruct (Req_dec_T height 0) as [H|_]; [lra|].
  unfold Rdiv at 1. rewrite Rmult_0_l, Hatan, rad2deg_0, pymod_0.
  reflexivity.
Qed.

Lemma coordinate_to_point_same_coordinate_witness :
  coordinate_to_point tf_exact (18, 59) (18, 59) 100 = Some (0, 0).
Proof.
  apply (coordinate_to_point_same_coordinate tf_exact (18, 59) 100).
  - exact tan_0.
  - exact atan_0.
  - lra.
Defined.

(** ** Angles *)

Lemma rad2deg_deg2rad (x : R) : rad2deg (deg2rad x) = x.
Proof. unfold rad2deg, deg2rad, DEG_IN_RED. field. Qed.

Lemma deg2rad_rad2deg (x : R) : deg2rad (rad2deg x) = x.
Proof. unfold rad2deg, deg2rad, DEG_IN_RED. field. Qed.

Lemma pymod_small (x m : R) : 0 <= x < m -> pymod x m = x.
Proof.
  intros [H0 Hm]. unfold pymod.
  assert (Hq : 0 <= x / m < 1).
  { assert (Hi : 0 < / m) by (apply Rinv_0_lt_compat; lra).
    assert (H1 : m * / m = 1) by (apply Rinv_r; lra).
    unfold Rdiv. split; nra. }
  rewrite <- (Int_part_spec (x / m) 0) by (simpl; lra). simpl. lra.
Qed.

Lemma PI_gt_3 : 3 < PI.
Proof. pose proof PI2_3_2. lra. Qed.

Lemma quotient_tan (r a : R) :
  r <> 0 -> cos a <> 0 -> r * sin a / (r * cos a) = tan a.
Proof. intros Hr Hc. unfold tan. field. auto. Qed.

(** [arctan2] gives back the angle of a point written in polar form. *)
Lemma arctan2_polar (r a : R) :
  0 < r -> - PI < a <= PI -> arctan2 (r * sin a) (r * cos a) = a.
Proof.
  intros Hr [Hlo Hhi]. pose proof PI_RGT_0 as Hpi.
  destruct (Rtotal_order a (PI / 2)) as [Hlt|[Heq|Hgt]].
  - destruct (Rtotal_order a (- (PI / 2))) as [Hlt'|[Heq'|Hgt']].
    + (* the third quadrant *)
      assert (Hs : sin a < 0) by (apply sin_lt_0_var; lra).
      assert (Hc : cos a < 0).
      { rewrite <- cos_neg. apply cos_lt_0; lra. }
      assert (Hb : atan (r * sin a / (r * cos a)) = a + PI).
      { rewrite quotient_tan by lra.
        replace (tan a) with (tan (a + PI)).
        - apply atan_tan. lra.
        - unfold tan. rewrite neg_sin, neg_cos. field. lra. }
      unfold arctan2.
      destruct (Rlt_dec 0 (r * cos a)) as [H|_]; [nra|].
      destruct (Rlt_dec (r * cos a) 0) as [_|H]; [|nra].
      destruct (Rle_dec 0 (r * sin a)) as [H|_]; [nra|].
      rewrite Hb. lra.
    + (* straight down the ordinate *)
      subst a. unfold arctan2.
      rewrite cos_neg, sin_neg, cos_PI2, sin_PI2.
      destruct (Rlt_dec 0 (r * 0)) as [H|_]; [lra|].
      destruct (Rlt_dec (r * 0) 0) as [H|_]; [lra|].
      destruct (Rlt_dec 0 (r * - (1))) as [H|_]; [lra|].
      destruct (Rlt_dec (r * - (1)) 0) as [_|H]; [reflexivity | lra].
    + (* the right half plane *)
      assert (Hc : 0 < cos a) by (apply cos_gt_0; lra).
      unfold arctan2.
      destruct (Rlt_dec 0 (r * cos a)) as [_|H]; [|nra].
      rewrite quotient_tan by lra. apply atan_tan. lra.
  - subst a. unfold arctan2. rewrite cos_PI2, sin_PI2.
    destruct (Rlt_dec 0 (r * 0)) as [H|_]; [lra|].
    destruct (Rlt_dec (r * 0) 0) as [H|_]; [lra|].
    destruct (Rlt_dec 0 (r * 1)) as [_|H]; [reflexivity | lra].
  - (* the second quadrant *)
    assert (Hs : 0 <= sin a) by (apply sin_ge_0; lra).
    assert (Hc : cos a < 0) by (apply cos_lt_0; lra).
    assert (Hb : atan (r * sin a / (r * cos a)) = a - PI).
    { rewrite quotient_tan by lra.
      replace (tan a) with (tan (a - PI)).
      - apply atan_tan. lra.
      - unfold tan.
        replace (sin a) with (sin (a - PI + PI)) by (f_equal; lra).
        replace (cos a) with (cos (a - PI + PI)) by (f_equal; lra).
        rewrite neg_sin, neg_cos. field.
        intros E. apply (Rlt_irrefl 0).
        replace (cos a) with (cos (a - PI + PI)) in Hc by (f_equal; lra).
        rewrite neg_cos in Hc. lra. }
    unfold arctan2.
    destruct (Rlt_dec 0 (r * cos a)) as [H|_]; [nra|].
    destruct (Rlt_dec (r * cos a) 0) as [_|H]; [|nra].
    destruct (Rle_dec 0 (r * sin a)) as [_|H]; [|nra].
    rewrite Hb. lra.
Qed.

Lemma arctan2_origin : arctan2 0 0 = 0.
Proof.
  unfold arctan2.
  destruct (Rlt_dec 0 0) as [H|_]; [lra | reflexivity].
Qed.

(** Bounds on PI that separate it from [deg2rad 180]. *)
Lemma PI_lower : 314159265 / 100000000 < PI.
Proof.
  pose proof (PI_2_3_7_ineq 4) as [H _].
  unfold sum_f_R0, tg_alt, PI_2_3_7_tg, Ratan_seq in H. simpl in H. lra.
Qed.

Lemma PI_upper : PI < 314159266 / 100000000.
Proof.
  pose proof (PI_2_3_7_ineq 5) as [_ H].
  unfold sum_f_R0, tg_alt, PI_2_3_7_tg, Ratan_seq in H. simpl in H. lra.
Qed.

Lemma deg2rad_180 : deg2rad 180 < PI.
Proof. pose proof PI_lower. unfold deg2rad, DEG_IN_RED. lra. Qed.

(** ** Attitude compensation *)

Section Rotation.

Variable tf : TaylorMath.

Hypothesis tf_sin_0 : tf_sin tf 0 = 0.
Hypothesis tf_cos_0 : tf_cos tf 0 = 1.

Lemma rotation_matrix_level : rotation_matrix tf 0 0 0 = identity3.
Proof.
  cbv beta iota zeta delta
      [rotation_matrix mat_dot mat_vec transpose dot3 identity3].
  rewrite deg2rad_0, tf_sin_0, tf_cos_0.
  repeat f_equal; ring.
Qed.

Lemma mat_vec_identity (v : vec3) : mat_vec (transpose identity3) v = v.
Proof.
  destruct v as [[x y] z].
  cbv beta iota zeta delta [mat_vec transpose dot3 identity3].
  repeat f_equal; ring.
Qed.

Lemma adjust_aim_level (s : ViewController) (theta phi : R) :
  level s ->
  adjust_aim tf s theta phi
  = spherical_to_angular tf (angular_to_spherical tf theta phi).
Proof.
  intros (Hr & Hy & Hp). unfold adjust_aim. rewrite Hr, Hy, Hp.
  rewrite rotation_matrix_level. now rewrite mat_vec_identity.
Qed.

(** Looking straight down, the bearing is lost: both horizontal
    components of the aim vector are 0. *)
Lemma spherical_straight_down (phi : R) :
  snd (spherical_to_angular tf (angular_to_spherical tf 0 phi)) = 0.
Proof.
  unfold spherical_to_angular, angular_to_spherical. cbn [snd].
  rewrite deg2rad_0, tf_sin_0, !Rmult_0_l, arctan2_origin, rad2deg_0.
  apply pymod_0.
Qed.

End Rotation.

(** With the exact functions, the aim vector gives back theta, and the
    bearing up to a full turn. *)
Lemma spherical_round_trip (theta phi a : R) :
  0 < theta < 90 -> - PI < a <= PI ->
  sin a = sin (deg2rad phi) -> cos a = cos (deg2rad phi) ->
  spherical_to_angular tf_exact (angular_to_spherical tf_exact theta phi)
  = (theta, pymod (rad2deg a) 360).
Proof.
  intros Ht Ha Hs Hc. pose proof deg2rad_180 as H180.
  assert (Hr : 0 < deg2rad theta < PI / 2).
  { unfold deg2rad, DEG_IN_RED in *. lra. }
  unfold spherical_to_angular, angular_to_spherical, tf_exact.
  cbn [tf_sin tf_cos tf_arccos].
  rewrite Ropp_involutive, acos_cos by lra.
  rewrite rad2deg_deg2rad, <- Hs, <- Hc, arctan2_polar; [reflexivity | | lra].
  apply sin_gt_0; lra.
Qed.

(** C1, as the code has it.  With roll = yaw = pitch = 0:
    [rotation_matrix(0,0,0)] is the identity and [adjust_aim(theta, phi)]
    is [spherical_to_angular(angular_to_spherical(theta, phi))], for
    every [tf] with sin(0) = 0 and cos(0) = 1; at theta = 0 the returned
    bearing is 0 whatever phi was; and with the exact functions
    [adjust_aim(theta, phi)] returns exactly (theta, phi) for
    0 < theta < 90 and 0 <= phi <= 180, and (0, 0) for theta = 0. *)
Theorem adjust_aim_level_vehicle (s : ViewController) :
  level s ->
  (forall tf : TaylorMath,
      tf_sin tf 0 = 0 -> tf_cos tf 0 = 1 ->
      rotation_matrix tf 0 0 0 = identity3 /\
      (forall theta phi,
          adjust_aim tf s theta phi
          = spherical_to_angular tf (angular_to_spherical tf theta phi)) /\
      (forall phi, snd (adjust_aim tf s 0 phi) = 0)) /\
  (forall theta phi,
      0 < theta < 90 -> 0 <= phi <= 180 ->
      adjust_aim tf_exact s theta phi = (theta, phi)) /\
  (forall phi, adjust_aim tf_exact s 0 phi = (0, 0)).
Proof.
  intros Hl. split.
  - intros tf Hs Hc. split; [now apply rotation_matrix_level|].
    split.
    + intros theta phi. now apply adjust_aim_level.
    + intros phi. rewrite adjust_aim_level by assumption.
      now apply spherical_straight_down.
  - split.
    + intros theta phi Ht Hp. pose proof deg2rad_180 as H180.
      rewrite (adjust_aim_level tf_exact sin_0 cos_0 s theta phi Hl).
      rewrite (spherical_round_trip theta phi (deg2rad phi)); auto.
      * rewrite rad2deg_deg2rad, pymod_small by lra. reflexivity.
      * unfold deg2rad, DEG_IN_RED in *. lra.
    + intros phi.
      rewrite (adjust_aim_level tf_exact sin_0 cos_0 s 0 phi Hl).
      rewrite (surjective_pairing (spherical_to_angular _ _)).
      rewrite (spherical_straight_down tf_exact sin_0).
      unfold spherical_to_angular, angular_to_spherical, tf_exact.
      cbn [fst tf_sin tf_cos tf_arccos].
      rewrite Ropp_involutive, deg2rad_0, acos_cos, rad2deg_0;
        [reflexivity|].
      pose proof PI_RGT_0. lra.
Qed.

Lemma level_init : level init.
Proof. unfold level. cbn [init d_roll d_yaw d_pitch]. auto. Qed.

Lemma adjust_aim_level_vehicle_witness :
  rotation_matrix tf_exact 0 0 0 = identity3 /\
  adjust_aim tf_exact init 30 90 = (30, 90).
Proof.
  destruct (adjust_aim_level_vehicle init level_init) as (H1 & H2 & _).
  split.
  - exact (proj1 (H1 tf_exact sin_0 cos_0)).
  - apply H2; lra.
Defined.

(** C1 as stated fails: with a level vehicle, the valid aim theta = 0,
    phi = 90 does not come back as (0, 90); the bearing returned is 0. *)
Lemma adjust_aim_level_counterexample :
  level init /\ 0 <= 0 < 90 /\
  adjust_aim tf_exact init 0 90 <> (0, 90).
Proof.
  split; [exact level_init|]. split; [lra|].
  intros E. apply (f_equal snd) in E.
  rewrite (adjust_aim_level tf_exact sin_0 cos_0 init 0 90 level_init) in E.
  rewrite (spherical_straight_down tf_exact sin_0) in E.
  cbn [snd] in E. lra.
Qed.

Lemma pymod_negative (x m : R) : - m <= x < 0 -> pymod x m = x + m.
Proof.
  intros [H0 Hm]. unfold pymod.
  assert (Hq : -1 <= x / m < 0).
  { assert (Hi : 0 < / m) by (apply Rinv_0_lt_compat; lra).
    assert (H1 : m * / m = 1) by (apply Rinv_r; lra).
    unfold Rdiv. split; nra. }
  rewrite <- (Int_part_spec (x / m) (-1)) by (simpl; lra). simpl. lra.
Qed.

(** Past the half turn the bearing does not come back exactly, even
    with the exact functions: [DEG_IN_RED] is not PI / 180, so a full
    turn in radians is not [deg2rad 360]. *)
Lemma adjust_aim_level_bearing_270 :
  adjust_aim tf_exact init 45 270 <> (45, 270).
Proof.
  pose proof PI_lower as Hlo. pose proof PI_upper as Hup.
  set (a := deg2rad 270 - 2 * PI).
  assert (Ha : - PI < a <= PI)
    by (unfold a, deg2rad, DEG_IN_RED; lra).
  assert (Hs : sin a = sin (deg2rad 270)).
  { rewrite <- (sin_period a 1). f_equal. unfold a. simpl INR. ring. }
  assert (Hc : cos a = cos (deg2rad 270)).
  { rewrite <- (cos_period a 1). f_equal. unfold a. simpl INR. ring. }
  rewrite (adjust_aim_level tf_exact sin_0 cos_0 init 45 270 level_init).
  rewrite (spherical_round_trip 45 270 a) by (auto; lra).
  intros E. apply (f_equal snd) in E. cbn [snd] in E.
  assert (Hx : -360 <= rad2deg a < 0).
  { unfold rad2deg, a, deg2rad, DEG_IN_RED. split.
    - apply Rmult_le_reg_r with (174532925 / 10000000000); [lra|].
      unfold Rdiv. rewrite Rmult_assoc, Rinv_l by lra. lra.
    - apply Rmult_lt_reg_r with (174532925 / 10000000000); [lra|].
      unfold Rdiv. rewrite Rmult_assoc, Rinv_l by lra. lra. }
  rewrite pymod_negative in E by exact Hx.
  assert (Hd : deg2rad (rad2deg a) = a) by apply deg2rad_rad2deg.
  replace (rad2deg a) with (-90) in Hd by lra.
  unfold a, deg2rad, DEG_IN_RED in Hd. lra.
Qed.

(** ** The compensated theta is not clamped *)

(** Rolled by 120 degrees and asked to look straight down, the
    compensated theta is 120. *)
Lemma adjust_aim_rolled_120 (s : ViewController) :
  d_roll s = 120 -> d_yaw s = 0 -> d_pitch s = 0 ->
  fst (adjust_aim tf_exact s 0 0) = 120.
Proof.
  intros Hr Hy Hp. pose proof PI_gt_3 as Hpi.
  unfold adjust_aim. rewrite Hr, Hy, Hp.
  cbv beta iota zeta delta
      [rotation_matrix mat_dot mat_vec transpose dot3 angular_to_spherical
       spherical_to_angular tf_exact tf_sin tf_cos tf_arccos fst].
  rewrite deg2rad_0, sin_0, cos_0.
  match goal with
  | |- rad2deg (acos ?e) = _ =>
      replace e with (cos (deg2rad 120)) by ring
  end.
  rewrite acos_cos, rad2deg_deg2rad; [reflexivity|].
  unfold deg2rad, DEG_IN_RED. lra.
Qed.

(** C10: [spherical_to_angular] takes theta as [tf.arccos] of minus the
    third component, which for the exact arccos ranges over the half
    turn from 0 to [rad2deg PI]; nothing clamps it: a vehicle rolled by
    120 degrees and an operator aim of theta = 0 give a compensated
    theta of 120, and the loop hands sin(deg2rad 120) to the camera as
    pitch. *)
Theorem theta_final_exceeds_90 :
  (forall (tf : TaylorMath) (x y z : R),
      fst (spherical_to_angular tf (x, y, z)) = rad2deg (tf_arccos tf (- z)))
  /\
  (forall v : vec3,
      0 <= fst (spherical_to_angular tf_exact v) <= rad2deg PI) /\
  0 <= 0 < 90 /\
  fst (adjust_aim tf_exact (set_d_roll 120 init) 0 0) = 120 /\
  exists s',
    run tf_exact [AutopilotInput (deg2rad 120) 0 0 1 0 0;
                  ServerInput 0 0 false 2; Cycle] init
    = Some (s', []) /\
    theta s' = 0 /\
    theta_final s' = 120 /\
    90 < theta_final s' /\
    camera_pitch s' = sin (deg2rad 120).
Proof.
  split; [reflexivity|]. split.
  { intros [[x y] z]. unfold spherical_to_angular, tf_exact.
    cbn [fst tf_arccos]. pose proof (acos_bound (- z)) as [H0 H1].
    unfold rad2deg, DEG_IN_RED, Rdiv.
    assert (Hi : 0 < / (174532925 * / 10000000000))
      by (apply Rinv_0_lt_compat; lra).
    split; nra. }
  split; [lra|]. split.
  { apply adjust_aim_rolled_120; reflexivity. }
  set (s2 := update_server_input
               (update_autopilot_input init (deg2rad 120) 0 0 1 0 0)
               0 0 false 2).
  set (s0 := snapshot_autopilot (snapshot_server s2)).
  assert (F : lock_on s0 = false /\ theta s0 = 0 /\ phi s0 = 0 /\
              d_roll s0 = 120 /\ d_yaw s0 = 0 /\ d_pitch s0 = 0).
  { unfold s0, s2, snapshot_autopilot, snapshot_server,
      update_server_input, update_autopilot_input.
    branch; rewrite ?rad2deg_deg2rad, ?rad2deg_0;
      repeat split; lra || reflexivity. }
  destruct F as (Fl & Ft & Fp & Fr & Fy & Fq).
  exists (level_roll tf_exact (aim_at tf_exact s0 (theta s0) (phi s0))).
  split.
  { do 2 (rewrite run_cons; cbn [step]; rewrite bind_ret_l).
    rewrite run_cons. cbn [step]. fold s2.
    rewrite (proj2 (main_cycle_Some tf_exact s2
               (level_roll tf_exact (aim_at tf_exact s0 (theta s0) (phi s0)))
               [])); [reflexivity|].
    left. fold s0. auto. }
  rewrite aim_at_eq, Ft, Fp. cbn [level_roll set_camera_roll set_camera_yaw
    set_camera_pitch set_phi_final set_theta_final theta theta_final
    camera_pitch].
  rewrite (adjust_aim_rolled_120 s0 Fr Fy Fq).
  repeat split; lra.
Qed.

(** ** The two geodesic conversions, with exact functions

    In real arithmetic and with the exact trigonometric functions,
    [coordinate_to_point] undoes [point_to_coordinate]: the angle from
    the vertical comes back as it was, and so does a bearing between 0
    and 180.  (What rounding and the truncated series of [tf] add to
    this is outside the model.) *)

Lemma rad2deg_plus (a b : R) : rad2deg (a + b) = rad2deg a + rad2deg b.
Proof. unfold rad2deg, DEG_IN_RED. field. Qed.


(** * Further properties of the code *)

(** ** Failure of the geodesic conversions *)

Lemma earth_radius_bounds (lat : R) :
  -90 <= lat <= 90 -> 6356752 <= earth_radius_at_lat lat <= 6399522.
Proof. unfold earth_radius_at_lat. cbv zeta. lra. Qed.

(** X1: The earth radius used by the conversions stays between 6356752 m
    and 6399522 m for latitudes from -90 to 90; it is not symmetric
    about the equator (it grows towards the south pole), and it is 0 at
    one latitude only, far outside that range. *)
Theorem earth_radius_at_lat_range (lat : R) :
  (-90 <= lat <= 90 ->
     6356752 <= earth_radius_at_lat lat <= 6399522) /\
  earth_radius_at_lat lat + earth_radius_at_lat (- lat) = 2 * 6378137 /\
  (earth_radius_at_lat lat = 0 <-> lat = 574032330 / 21385).
Proof.
  unfold earth_radius_at_lat. cbv zeta. repeat split; intros; lra.
Qed.

Lemma earth_radius_at_lat_range_witness :
  6356752 <= earth_radius_at_lat 59 <= 6399522.
Proof.
  apply (earth_radius_at_lat_range 59). lra.
Defined.

(** X2: [point_to_coordinate] fails exactly when the earth radius at the
    vehicle's latitude is 0, whatever the aim and the height are; for a
    latitude from -90 to 90 it always returns a coordinate. *)
Theorem point_to_coordinate_fails_iff
    (tf : TaylorMath) (theta phi height : R) (d_coord : coord) :
  (point_to_coordinate tf theta phi height d_coord = None
   <-> earth_radius_at_lat (snd d_coord) = 0) /\
  (-90 <= snd d_coord <= 90 ->
   exists c, point_to_coordinate tf theta phi height d_coord = Some c).
Proof.
  assert (H : point_to_coordinate tf theta phi height d_coord = None
              <-> earth_radius_at_lat (snd d_coord) = 0).
  { unfold point_to_coordinate, pydiv.
    destruct (Req_dec_T (earth_radius_at_lat (snd d_coord)) 0) as [E|E].
    - tauto.
    - split; [discriminate | contradiction]. }
  split; [exact H|]. intros Hlat.
  assert (Hn : point_to_coordinate tf theta phi height d_coord <> None).
  { intros E. apply H in E.
    pose proof (earth_radius_bounds (snd d_coord) Hlat). lra. }
  destruct (point_to_coordinate tf theta phi height d_coord) as [c|].
  - now exists c.
  - now elim Hn.
Qed.

Lemma point_to_coordinate_fails_iff_witness :
  exists c, point_to_coordinate tf_exact 30 90 100 (18, 59) = Some c.
Proof.
  apply (point_to_coordinate_fails_iff tf_exact 30 90 100 (18, 59)).
  cbn [snd]. lra.
Defined.

(** X3: [coordinate_to_point] fails exactly when the height is 0, whatever
    the two coordinates are (a negative height does not fail). *)
Theorem coordinate_to_point_fails_iff
    (tf : TaylorMath) (coord1 coord2 : coord) (height : R) :
  coordinate_to_point tf coord1 coord2 height = None <-> height = 0.
Proof.
  unfold coordinate_to_point, pydiv.
  destruct (Req_dec_T height 0) as [E|E].
  - tauto.
  - split; [discriminate | contradiction].
Qed.

(** ** Turns of the loop *)

Section Turns.

Variable tf : TaylorMath.

(** What the rest of a turn keeps of the loop's working copy. *)
Lemma turn_keeps_working_copy (s1 : ViewController) (t p : R) :
  let s' := level_roll tf (aim_at tf s1 t p) in
  lock_on s' = lock_on s1 /\ theta s' = theta s1 /\ phi s' = phi s1 /\
  d_roll s' = d_roll s1 /\ d_pitch s' = d_pitch s1 /\ d_yaw s' = d_yaw s1 /\
  d_height s' = d_height s1 /\ d_coordinate s' = d_coordinate s1 /\
  init_lock_on s' = init_lock_on s1 /\
  aim_coordinate s' = aim_coordinate s1.
Proof. cbv zeta. rewrite aim_at_eq. cbn. repeat split. Qed.

Lemma capture_keeps_working_copy (s0 s1 : ViewController)
    (log : list capture) :
  lock_on_capture tf s0 = Some (s1, log) ->
  lock_on s1 = lock_on s0 /\ theta s1 = theta s0 /\ phi s1 = phi s0 /\
  d_roll s1 = d_roll s0 /\ d_pitch s1 = d_pitch s0 /\ d_yaw s1 = d_yaw s0 /\
  d_height s1 = d_height s0 /\ d_coordinate s1 = d_coordinate s0.
Proof.
  intros H. apply lock_on_capture_Some in H.
  destruct H as [(_ & -> & _)|(_ & c & _ & -> & _)]; cbn; repeat split.
Qed.

Lemma main_cycle_working_copy (s s' : ViewController) (log : list capture) :
  main_cycle tf s = Some (s', log) ->
  let s0 := snapshot_autopilot (snapshot_server s) in
  lock_on s' = lock_on s0 /\ theta s' = theta s0 /\ phi s' = phi s0 /\
  d_roll s' = d_roll s0 /\ d_pitch s' = d_pitch s0 /\ d_yaw s' = d_yaw s0 /\
  d_height s' = d_height s0 /\ d_coordinate s' = d_coordinate s0.
Proof.
  intros H. apply main_cycle_Some in H. cbv zeta in *.
  set (s0 := snapshot_autopilot (snapshot_server s)) in *.
  destruct H as [(_ & _ & ->)|(_ & s1 & t & p & Hc & _ & ->)].
  - destruct (turn_keeps_working_copy s0 (theta s0) (phi s0))
      as (? & ? & ? & ? & ? & ? & ? & ? & _). repeat split; assumption.
  - destruct (turn_keeps_working_copy s1 t p)
      as (? & ? & ? & ? & ? & ? & ? & ? & _).
    destruct (capture_keeps_working_copy s0 s1 log Hc)
      as (? & ? & ? & ? & ? & ? & ? & ?).
    repeat split; congruence.
Qed.

(** X4: The loop takes the operator's publish only when [server_write] is
    clear, and the vehicle sample only when [autopilot_write] is clear:
    a turn started while a flag is set works on the values of the turn
    before, whatever has been published since. *)
Theorem main_cycle_snapshot (s s' : ViewController) (log : list capture) :
  main_cycle tf s = Some (s', log) ->
  (server_write s = false ->
     lock_on s' = lock_on_in s /\ theta s' = theta_in s /\
     phi s' = phi_in s) /\
  (server_write s = true ->
     lock_on s' = lock_on s /\ theta s' = theta s /\ phi s' = phi s) /\
  (autopilot_write s = false ->
     d_roll s' = d_roll_in s /\ d_pitch s' = d_pitch_in s /\
     d_yaw s' = d_yaw_in s /\ d_height s' = d_height_in s /\
     d_coordinate s' = d_coordinate_in s) /\
  (autopilot_write s = true ->
     d_roll s' = d_roll s /\ d_pitch s' = d_pitch s /\
     d_yaw s' = d_yaw s /\ d_height s' = d_height s /\
     d_coordinate s' = d_coordinate s).
Proof.
  intros H. apply main_cycle_working_copy in H. cbv zeta in H.
  destruct H as (-> & -> & -> & -> & -> & -> & -> & ->).
  unfold snapshot_autopilot, snapshot_server.
  split; [|split; [|split]]; intros Hf;
    destruct (server_write s) eqn:Hs, (autopilot_write s) eqn:Ha;
    try discriminate; cbn; rewrite ?Hs, ?Ha; cbn; repeat split.
Qed.

(** X5: A turn of the loop fails in lock-on mode only: when the height is 0,
    or when a capture is pending and the earth radius at the vehicle's
    latitude is 0.  In direct mode it always completes. *)
Theorem main_cycle_fails_iff (s : ViewController) :
  server_write s = false -> autopilot_write s = false ->
  (main_cycle tf s = None <->
   lock_on_in s = true /\
   (d_height_in s = 0 \/
    (init_lock_on s = true /\
     earth_radius_at_lat (snd (d_coordinate_in s)) = 0))).
Proof.
  intros Hs Ha.
  destruct (snapshot_fields s Hs Ha) as (S1 & S2 & S3 & S4 & S5 & S6 & S7).
  set (s0 := snapshot_autopilot (snapshot_server s)) in *.
  assert (Hp2c : forall th ph h c,
             point_to_coordinate tf th ph h c = None
             <-> earth_radius_at_lat (snd c) = 0).
  { intros. unfold point_to_coordinate, pydiv.
    destruct (Req_dec_T (earth_radius_at_lat (snd c)) 0) as [E|E];
      [tauto | split; [discriminate | contradiction]]. }
  assert (Hc2p : forall c1 c2 h,
             coordinate_to_point tf c1 c2 h = None <-> h = 0).
  { intros. unfold coordinate_to_point, pydiv.
    destruct (Req_dec_T h 0) as [E|E];
      [tauto | split; [discriminate | contradiction]]. }
  destruct (main_cycle tf s) as [[s' log]|] eqn:E.
  - split; [discriminate|]. intros (Hl & Hbad). exfalso.
    apply main_cycle_Some in E. cbv zeta in E. fold s0 in E.
    destruct E as [(E & _)|(_ & s1 & t & p & Hc & Hp & _)]; [congruence|].
    assert (Hh1 : d_height s1 <> 0).
    { intros F.
      apply (proj2 (Hc2p (d_coordinate s1) (aim_coordinate s1) _)) in F.
      congruence. }
    destruct (capture_keeps_working_copy s0 s1 log Hc)
      as (_ & _ & _ & _ & _ & _ & Hh & _).
    apply lock_on_capture_Some in Hc.
    destruct Hbad as [Hz|(Hi & Hr)]; [congruence|].
    destruct Hc as [(Hi0 & _)|(_ & c & Hc & _)]; [congruence|].
    assert (F : point_to_coordinate tf (theta s0) (phi s0) (d_height s0)
                  (d_coordinate s0) = None)
      by (apply Hp2c; congruence).
    congruence.
  - split; [intros _|reflexivity].
    destruct (lock_on_in s) eqn:Hl.
    2:{ exfalso. destruct (main_cycle_direct tf s) as [s' F];
          [fold s0; congruence | congruence]. }
    split; [reflexivity|].
    destruct (Req_dec_T (d_height_in s) 0) as [Hz|Hnz]; [now left|].
    right.
    destruct (init_lock_on s) eqn:Hi.
    + split; [reflexivity|].
      destruct (Req_dec_T (earth_radius_at_lat (snd (d_coordinate_in s))) 0)
        as [Hr|Hr]; [exact Hr|].
      exfalso.
      destruct (cycle_capture tf s) as (s' & c & F & _); [|auto|auto|].
      * unfold Safe. auto.
      * congruence.
    + exfalso.
      destruct (coordinate_to_point tf (d_coordinate s0) (aim_coordinate s0)
                  (d_height s0)) as [[t p]|] eqn:Hp.
      * assert (F : main_cycle tf s
                    = Some (level_roll tf (aim_at tf s0 t p), [])).
        { apply main_cycle_Some. right. fold s0. split; [congruence|].
          exists s0, t, p. split; [|auto].
          apply lock_on_capture_Some. left. split; [congruence|auto]. }
        congruence.
      * apply Hc2p in Hp. congruence.
Qed.

End Turns.

Lemma main_cycle_snapshot_witness :
  exists s',
    main_cycle tf_exact (update_server_input init 30 90 false 2)
    = Some (s', []) /\
    theta s' = theta_in (update_server_input init 30 90 false 2).
Proof.
  destruct (main_cycle_direct tf_exact (update_server_input init 30 90 false 2))
    as [s' H].
  - unfold update_server_input. branch; reflexivity.
  - exists s'. split; [exact H|].
    destruct (main_cycle_snapshot tf_exact _ s' [] H) as (H1 & _).
    apply H1. unfold update_server_input. branch; reflexivity.
Defined.

Lemma main_cycle_fails_iff_witness :
  main_cycle tf_exact (set_d_height_in 0 (set_lock_on_in true init)) = None.
Proof.
  apply (main_cycle_fails_iff tf_exact
           (set_d_height_in 0 (set_lock_on_in true init)) eq_refl eq_refl).
  split; [reflexivity|]. left. reflexivity.
Defined.

(** ** Runs in direct mode *)

Section DirectRuns.

Variable tf : TaylorMath.

Lemma update_server_input_unlocked (s : ViewController) (theta phi zoom_in : R) :
  let s' := update_server_input s theta phi false zoom_in in
  server_write s' = server_write s /\
  autopilot_write s' = autopilot_write s /\
  (server_write s = false -> lock_on_in s' = false) /\
  init_lock_on s' = init_lock_on s /\
  aim_coordinate s' = aim_coordinate s.
Proof.
  cbv zeta. unfold update_server_input.
  destruct (server_write s) eqn:Hs.
  - rewrite Hs. repeat split. discriminate.
  - branch; repeat split.
Qed.

Lemma update_autopilot_input_lock_state (s : ViewController)
    (roll yaw pitch height lon lat : R) :
  let s' := update_autopilot_input s roll yaw pitch height lon lat in
  server_write s' = server_write s /\
  autopilot_write s' = autopilot_write s /\
  lock_on_in s' = lock_on_in s /\
  init_lock_on s' = init_lock_on s /\
  aim_coordinate s' = aim_coordinate s.
Proof.
  cbv zeta. unfold update_autopilot_input.
  destruct (autopilot_write s) eqn:Ha.
  - rewrite Ha. repeat split.
  - branch; repeat split.
Qed.

(** X6: In direct mode nothing fails and nothing is captured, whatever the
    vehicle reports (a height of 0 included): a run whose publishes all
    carry [lock_on = false] completes, never calls [point_to_coordinate],
    and leaves the stored target and a pending capture as they are. *)
Theorem direct_mode_never_fails (tr : list event) :
  forall s : ViewController,
    server_write s = false -> autopilot_write s = false ->
    lock_on_in s = false ->
    Forall (held false) tr ->
    exists s',
      run tf tr s = Some (s', []) /\ lock_on_in s' = false /\
      init_lock_on s' = init_lock_on s /\
      aim_coordinate s' = aim_coordinate s.
Proof.
  induction tr as [|e tr IH]; intros s Hs Ha Hl Hh.
  - exists s. cbn. auto.
  - inversion Hh as [|? ? He Hh']; subst.
    destruct e as [theta phi lock zoom_in|roll yaw pitch height lon lat|].
    + cbn in He. subst lock.
      destruct (update_server_input_unlocked s theta phi zoom_in)
        as (F1 & F2 & F3 & F4 & F5).
      destruct (IH (update_server_input s theta phi false zoom_in))
        as (s' & Hr & ? & ? & ?); auto; try congruence.
      exists s'. rewrite run_cons. cbn [step]. rewrite bind_ret_l.
      conjuncts.
    + destruct (update_autopilot_input_lock_state s roll yaw pitch height
                  lon lat) as (F1 & F2 & F3 & F4 & F5).
      destruct (IH (update_autopilot_input s roll yaw pitch height lon lat))
        as (s' & Hr & ? & ? & ?); auto; try congruence.
      exists s'. rewrite run_cons. cbn [step]. rewrite bind_ret_l.
      conjuncts.
    + destruct (snapshot_fields s Hs Ha) as (S1 & _ & _ & _ & _ & S6 & S7).
      destruct (main_cycle_direct tf s) as [s1 Hc]; [congruence|].
      pose proof (main_cycle_frame tf s s1 [] Hc)
        as (G1 & G2 & G3 & _).
      assert (Hk : init_lock_on s1 = init_lock_on s /\
                   aim_coordinate s1 = aim_coordinate s).
      { apply main_cycle_Some in Hc. cbv zeta in Hc.
        destruct Hc as [(_ & _ & ->)|(Hc & _)]; [|congruence].
        rewrite aim_at_eq. cbn. auto. }
      destruct Hk as [K1 K2].
      destruct (IH s1) as (s' & Hr & ? & ? & ?); auto; try congruence.
      exists s'. rewrite (run_cycle_Some tf tr s s1 s' [] [] Hc Hr).
      conjuncts.
Qed.

(** ** Ranges kept by every run *)

Lemma step_keeps_ranges (e : event) (s s' : ViewController)
    (log : list capture) :
  in_range s -> step tf e s = Some (s', log) -> in_range s'.
Proof.
  intros (R1 & R2 & R3 & R4 & R5) H.
  destruct e as [theta phi lock zoom_in|roll yaw pitch height lon lat|];
    cbn [step] in H.
  - injection H as <- _. unfold in_range, update_server_input.
    destruct (server_write s); [tauto|]. branch; repeat split; lra.
  - injection H as <- _. unfold in_range, update_autopilot_input.
    destruct (autopilot_write s); [tauto|]. branch; repeat split; lra.
  - pose proof (main_cycle_frame tf s s' log H)
      as (_ & _ & _ & F4 & _ & F6 & _ & F8).
    pose proof (main_cycle_working_copy tf s s' log H) as W.
    cbv zeta in W. destruct W as (_ & W2 & _ & _ & _ & _ & W7 & _).
    unfold in_range. rewrite F4, F6, F8, W2, W7.
    unfold snapshot_autopilot, snapshot_server.
    destruct (server_write s) eqn:Hs, (autopilot_write s) eqn:Ha;
      cbn; rewrite ?Hs, ?Ha; cbn; repeat split; lra.
Qed.

(** X7: Whatever is published and however the loop turns, the stored and
    the working theta stay in [0, 90), the stored and the working
    height stay non-negative and the zoom stays in [2, 50]. *)
Theorem run_keeps_ranges (es : list event) :
  forall (s s' : ViewController) (log : list capture),
    in_range s -> run tf es s = Some (s', log) -> in_range s'.
Proof.
  induction es as [|e es IH]; intros s s' log HR H.
  - cbn in H. injection H as <- _. exact HR.
  - rewrite run_cons in H. apply bind_Some in H.
    destruct H as (s1 & l1 & l2 & H1 & H2 & _).
    apply (IH s1 s' l2); [|exact H2].
    exact (step_keeps_ranges e s s1 l1 HR H1).
Qed.

End DirectRuns.

Lemma in_range_init : in_range init.
Proof. unfold in_range. cbn. lra. Qed.

(** ** The rotation is a rotation *)

(** Equality of two vectors or matrices, entry by entry. *)
Ltac entries :=
  repeat match goal with
         | |- (_, _) = (_, _) => apply f_equal2
         end.

Lemma mat_dot_assoc (a b c : mat3) :
  mat_dot (mat_dot a b) c = mat_dot a (mat_dot b c).
Proof.
  destruct a as [[[[a11 a12] a13] [[a21 a22] a23]] [[a31 a32] a33]].
  destruct b as [[[[b11 b12] b13] [[b21 b22] b23]] [[b31 b32] b33]].
  destruct c as [[[[c11 c12] c13] [[c21 c22] c23]] [[c31 c32] c33]].
  cbv beta iota zeta delta [mat_dot transpose dot3].
  entries; ring.
Qed.

Lemma transpose_mat_dot (a b : mat3) :
  transpose (mat_dot a b) = mat_dot (transpose b) (transpose a).
Proof.
  destruct a as [[[[a11 a12] a13] [[a21 a22] a23]] [[a31 a32] a33]].
  destruct b as [[[[b11 b12] b13] [[b21 b22] b23]] [[b31 b32] b33]].
  cbv beta iota zeta delta [mat_dot transpose dot3].
  entries; ring.
Qed.

Lemma mat_dot_identity_l (a : mat3) : mat_dot identity3 a = a.
Proof.
  destruct a as [[[[a11 a12] a13] [[a21 a22] a23]] [[a31 a32] a33]].
  cbv beta iota zeta delta [mat_dot transpose dot3 identity3].
  entries; ring.
Qed.


(** A product of two matrices whose transpose is their inverse is such
    a matrix. *)
Lemma orthogonal_mat_dot (a b : mat3) :
  mat_dot a (transpose a) = identity3 ->
  mat_dot b (transpose b) = identity3 ->
  mat_dot (mat_dot a b) (transpose (mat_dot a b)) = identity3.
Proof.
  intros Ha Hb. rewrite transpose_mat_dot, mat_dot_assoc.
  rewrite <- (mat_dot_assoc b), Hb, mat_dot_identity_l. exact Ha.
Qed.

Lemma orthogonal_transpose_mat_dot (a b : mat3) :
  mat_dot (transpose a) a = identity3 ->
  mat_dot (transpose b) b = identity3 ->
  mat_dot (transpose (mat_dot a b)) (mat_dot a b) = identity3.
Proof.
  intros Ha Hb. rewrite transpose_mat_dot, mat_dot_assoc.
  rewrite <- (mat_dot_assoc (transpose a)), Ha, mat_dot_identity_l.
  exact Hb.
Qed.

Lemma mat_vec_mat_dot (a b : mat3) (v : vec3) :
  mat_vec (mat_dot a b) v = mat_vec a (mat_vec b v).
Proof.
  destruct a as [[[[a11 a12] a13] [[a21 a22] a23]] [[a31 a32] a33]].
  destruct b as [[[[b11 b12] b13] [[b21 b22] b23]] [[b31 b32] b33]].
  destruct v as [[x y] z].
  cbv beta iota zeta delta [mat_dot mat_vec transpose dot3].
  entries; ring.
Qed.

Lemma mat_vec_identity3 (v : vec3) : mat_vec identity3 v = v.
Proof.
  destruct v as [[x y] z].
  cbv beta iota zeta delta [mat_vec dot3 identity3].
  entries; ring.
Qed.


Section Orthogonal.

Variable tf : TaylorMath.

Hypothesis tf_pythagoras :
  forall x, tf_sin tf x * tf_sin tf x + tf_cos tf x * tf_cos tf x = 1.

Lemma rotation_matrix_inverse_r (roll yaw pitch : R) :
  mat_dot (rotation_matrix tf roll yaw pitch)
          (transpose (rotation_matrix tf roll yaw pitch)) = identity3.
Proof.
  pose proof (tf_pythagoras (deg2rad roll)) as Hr.
  pose proof (tf_pythagoras (deg2rad yaw)) as Hy.
  pose proof (tf_pythagoras (deg2rad pitch)) as Hp.
  unfold rotation_matrix. cbv zeta.
  apply orthogonal_mat_dot; [|apply orthogonal_mat_dot];
    cbv beta iota zeta delta [mat_dot transpose dot3 identity3];
    entries; nra.
Qed.

Lemma rotation_matrix_inverse_l (roll yaw pitch : R) :
  mat_dot (transpose (rotation_matrix tf roll yaw pitch))
          (rotation_matrix tf roll yaw pitch) = identity3.
Proof.
  pose proof (tf_pythagoras (deg2rad roll)) as Hr.
  pose proof (tf_pythagoras (deg2rad yaw)) as Hy.
  pose proof (tf_pythagoras (deg2rad pitch)) as Hp.
  unfold rotation_matrix. cbv zeta.
  apply orthogonal_transpose_mat_dot; [|apply orthogonal_transpose_mat_dot];
    cbv beta iota zeta delta [mat_dot transpose dot3 identity3];
    entries; nra.
Qed.

(** X8: The docstring of [rotation_matrix] says that its inverse is its
    transpose; it is, for every roll, yaw and pitch, as soon as [tf.sin]
    and [tf.cos] satisfy sin^2 + cos^2 = 1.  So the compensation of
    [adjust_aim] undoes the rotation of the vehicle exactly. *)
Theorem rotation_matrix_orthogonal (roll yaw pitch : R) (v : vec3) :
  let m := rotation_matrix tf roll yaw pitch in
  mat_dot m (transpose m) = identity3 /\
  mat_dot (transpose m) m = identity3 /\
  mat_vec (transpose m) (mat_vec m v) = v.
Proof.
  cbv zeta. split; [apply rotation_matrix_inverse_r|].
  split; [apply rotation_matrix_inverse_l|].
  rewrite <- mat_vec_mat_dot, rotation_matrix_inverse_l.
  apply mat_vec_identity3.
Qed.


End Orthogonal.

Lemma tf_exact_pythagoras (x : R) :
  tf_sin tf_exact x * tf_sin tf_exact x
  + tf_cos tf_exact x * tf_cos tf_exact x = 1.
Proof. cbn [tf_exact tf_sin tf_cos]. apply (sin2_cos2 x). Qed.

Lemma rotation_matrix_orthogonal_witness :
  mat_vec (transpose (rotation_matrix tf_exact 10 20 30))
          (mat_vec (rotation_matrix tf_exact 10 20 30) (1, 2, 3))
  = (1, 2, 3).
Proof.
  apply (rotation_matrix_orthogonal tf_exact tf_exact_pythagoras
           10 20 30 (1, 2, 3)).
Defined.


(** ** What the loop can hand to the camera *)

(** The exact value of [x % m]; in doubles the upper end is reached. *)
Lemma pymod_range (x m : R) : 0 < m -> 0 <= pymod x m < m.
Proof.
  intros Hm. unfold pymod.
  destruct (base_Int_part (x / m)) as [H1 H2].
  assert (E : x / m * m = x) by (field; lra).
  set (k := IZR (Int_part (x / m))) in *.
  split; nra.
Qed.

Lemma spherical_to_angular_bearing (tf : TaylorMath) (v : vec3) :
  0 <= snd (spherical_to_angular tf v) < 360.
Proof.
  destruct v as [[x y] z]. unfold spherical_to_angular. cbn [snd].
  apply pymod_range. lra.
Qed.

(** X10: Whatever [tf] computes and whatever the attitude is, the yaw
    handed to the camera after a turn is the compensated bearing and
    lies between 0 and 360, both ends included (what [%] gives at a
    tiny negative bearing in doubles is 360 itself). *)
Theorem camera_yaw_range (tf : TaylorMath) (s s' : ViewController)
    (log : list capture) :
  main_cycle tf s = Some (s', log) ->
  camera_yaw s' = phi_final s' /\ 0 <= camera_yaw s' <= 360.
Proof.
  intros H. apply main_cycle_Some in H. cbv zeta in H.
  assert (G : forall s1 t p,
             camera_yaw (level_roll tf (aim_at tf s1 t p))
             = phi_final (level_roll tf (aim_at tf s1 t p)) /\
             0 <= camera_yaw (level_roll tf (aim_at tf s1 t p)) <= 360).
  { intros s1 t p. rewrite aim_at_eq.
    cbn [level_roll set_camera_roll set_camera_yaw set_camera_pitch
         set_phi_final set_theta_final camera_yaw phi_final].
    split; [reflexivity|]. unfold adjust_aim.
    match goal with
    | |- 0 <= snd (spherical_to_angular tf ?v) <= 360 =>
        pose proof (spherical_to_angular_bearing tf v)
    end.
    lra. }
  destruct H as [(_ & _ & ->)|(_ & s1 & t & p & _ & _ & ->)]; apply G.
Qed.

(** X11: With the exact functions the pitch handed to the camera after a
    turn lies in [0, 1]: it is the sine of an angle between 0 and PI,
    so a compensated theta above 90 gives the same pitch as its
    supplement. *)
Theorem camera_pitch_range (s s' : ViewController) (log : list capture) :
  main_cycle tf_exact s = Some (s', log) ->
  camera_pitch s' = sin (deg2rad (theta_final s')) /\
  0 <= camera_pitch s' <= 1.
Proof.
  intros H. apply main_cycle_Some in H. cbv zeta in H.
  assert (G : forall s1 t p,
             let r := level_roll tf_exact (aim_at tf_exact s1 t p) in
             camera_pitch r = sin (deg2rad (theta_final r)) /\
             0 <= camera_pitch r <= 1).
  { intros s1 t p. cbv zeta. rewrite aim_at_eq.
    cbn [level_roll set_camera_roll set_camera_yaw set_camera_pitch
         set_phi_final set_theta_final camera_pitch theta_final
         tf_exact tf_sin].
    split; [reflexivity|]. unfold adjust_aim.
    destruct (mat_vec _ _) as [[x y] z].
    unfold spherical_to_angular. cbn [fst tf_exact tf_arccos].
    rewrite deg2rad_rad2deg.
    pose proof (acos_bound (- z)) as [H0 H1].
    split; [apply sin_ge_0; assumption|].
    pose proof (SIN_bound (acos (- z))). lra. }
  destruct H as [(_ & _ & ->)|(_ & s1 & t & p & _ & _ & ->)]; apply G.
Qed.

Lemma camera_yaw_range_witness :
  exists s', main_cycle tf_exact init = Some (s', []) /\
             0 <= camera_yaw s' <= 360.
Proof.
  destruct (main_cycle_direct tf_exact init eq_refl) as [s' H].
  exists s'. split; [exact H|].
  apply (camera_yaw_range tf_exact init s' [] H).
Defined.

Lemma camera_pitch_range_witness :
  exists s', main_cycle tf_exact init = Some (s', []) /\
             0 <= camera_pitch s' <= 1.
Proof.
  destruct (main_cycle_direct tf_exact init eq_refl) as [s' H].
  exists s'. split; [exact H|].
  apply (camera_pitch_range init s' [] H).
Defined.

(** ** Compensation of a yaw *)



(** ** From the publish to the command *)






(** ** Lock-on with a standing vehicle *)

Section StandingVehicle.

Variables theta0 phi0 : R.



End StandingVehicle.



Lemma direct_mode_never_fails_witness :
  exists s',
    run tf_exact [AutopilotInput 0 0 0 0 0 0; ServerInput 30 90 false 2;
                  Cycle; Cycle] init
    = Some (s', []).
Proof.
  destruct (direct_mode_never_fails tf_exact
              [AutopilotInput 0 0 0 0 0 0; ServerInput 30 90 false 2;
               Cycle; Cycle] init eq_refl eq_refl eq_refl)
    as (s' & H & _).
  - repeat constructor.
  - exists s'. exact H.
Defined.

Lemma run_keeps_ranges_witness :
  in_range (update_autopilot_input
              (update_server_input init 95 0 false 100) 0 0 0 (-4) 0 0).
Proof.
  apply (run_keeps_ranges tf_exact
           [ServerInput 95 0 false 100; AutopilotInput 0 0 0 (-4) 0 0]
           init _ [] in_range_init).
  do 2 (rewrite run_cons; cbn [step]; rewrite bind_ret_l).
  reflexivity.
Defined.

(** ** More on the geodesic conversions *)

(** X16: Aiming straight down captures the vehicle's own coordinate, at
    any height and bearing: what comes back is the coordinate taken
    through [deg2rad] and back through [rad2deg], nothing else, when
    [tf.tan] and [tf.arctan] vanish at 0 and the earth radius is not
    0. *)
Theorem point_to_coordinate_straight_down
    (tf : TaylorMath) (phi height : R) (d_coord : coord) :
  tf_tan tf 0 = 0 -> tf_arctan tf 0 = 0 ->
  earth_radius_at_lat (snd d_coord) <> 0 ->
  point_to_coordinate tf 0 phi height d_coord
  = Some (rad2deg (deg2rad (fst d_coord)), rad2deg (deg2rad (snd d_coord))).
Proof.
  intros Htan Hatan Hrad. unfold point_to_coordinate, pydiv.
  destruct (Req_dec_T (earth_radius_at_lat (snd d_coord)) 0) as [E|_];
    [contradiction|].
  rewrite deg2rad_0, Htan, Rmult_0_r, !Rmult_0_l.
  unfold Rdiv. rewrite Rmult_0_l, Hatan, !Rplus_0_r.
  reflexivity.
Qed.

Lemma point_to_coordinate_straight_down_witness :
  point_to_coordinate tf_exact 0 45 100 (18, 59)
  = Some (rad2deg (deg2rad 18), rad2deg (deg2rad 59)).
Proof.
  apply (point_to_coordinate_straight_down tf_exact 45 100 (18, 59)).
  - exact tan_0.
  - exact atan_0.
  - unfold earth_radius_at_lat. cbn [snd]. lra.
Defined.

(** X17: With the exact arctan and a height above 0,
    [coordinate_to_point] returns an angle from the vertical in
    [0, 90.000001) and a bearing between 0 and 360, both ends included
    (what [%] gives at a tiny negative bearing in doubles is 360
    itself), whatever the two coordinates are. *)
Theorem coordinate_to_point_range (coord1 coord2 : coord) (height : R) :
  0 < height ->
  exists theta phi,
    coordinate_to_point tf_exact coord1 coord2 height = Some (theta, phi) /\
    0 <= theta < 90 + 1 / 1000000 /\ 0 <= phi <= 360.
Proof.
  intros Hh. pose proof PI_upper as Hup.
  unfold coordinate_to_point, pydiv.
  destruct (Req_dec_T height 0) as [E|_]; [lra|].
  cbn [tf_exact tf_arctan].
  eexists. eexists. split; [reflexivity|]. split.
  - set (q := sqrt _ / height).
    assert (Hq : 0 <= q).
    { unfold q, Rdiv. apply Rmult_le_pos; [apply sqrt_pos|].
      left. now apply Rinv_0_lt_compat. }
    assert (H0 : 0 <= atan q).
    { destruct Hq as [Hq|<-]; [|rewrite atan_0; lra].
      rewrite <- atan_0. left. now apply atan_increasing. }
    pose proof (atan_bound q) as [_ H1].
    replace (rad2deg (atan q))
      with (atan q * (10000000000 / 174532925))
      by (unfold rad2deg, DEG_IN_RED; field).
    lra.
  - match goal with
    | |- 0 <= pymod ?x 360 <= 360 =>
        pose proof (pymod_range x 360 ltac:(lra))
    end.
    lra.
Qed.

Lemma coordinate_to_point_range_witness :
  exists theta phi,
    coordinate_to_point tf_exact (18, 59) (19, 60) 100 = Some (theta, phi) /\
    0 <= theta < 90 + 1 / 1000000 /\ 0 <= phi <= 360.
Proof.
  apply (coordinate_to_point_range (18, 59) (19, 60) 100). lra.
Defined.

(** ** The two channels *)

(** Every setter and field access written out on a record. *)
Ltac fields :=
  cbv beta iota delta
      [set_d_roll_in set_d_pitch_in set_d_yaw_in set_d_height_in
       set_d_coordinate_in set_d_roll set_d_pitch set_d_yaw set_d_height
       set_d_coordinate set_lock_on_in set_theta_in set_phi_in
       set_lock_on set_theta set_phi set_init_lock_on
       set_autopilot_write set_server_write set_aim_coordinate
       set_phi_final set_theta_final set_camera_roll set_camera_yaw
       set_camera_pitch set_camera_zoom d_roll_in
       d_pitch_in d_yaw_in d_height_in d_coordinate_in d_roll d_pitch
       d_yaw d_height d_coordinate lock_on_in theta_in phi_in lock_on
       theta phi init_lock_on autopilot_write server_write
       aim_coordinate phi_final theta_final camera_roll camera_yaw
       camera_pitch camera_zoom].

(** X18: The operator's channel and the vehicle's channel do not touch each
    other: a publish and a sample can be stored in either order. *)
Theorem setters_commute (s : ViewController)
    (theta phi : R) (lock : bool) (zoom_in : R)
    (roll yaw pitch height lon lat : R) :
  update_server_input
    (update_autopilot_input s roll yaw pitch height lon lat)
    theta phi lock zoom_in
  = update_autopilot_input
      (update_server_input s theta phi lock zoom_in)
      roll yaw pitch height lon lat.
Proof.
  destruct s as
      [f1 f2 f3 f4 f5 f6 f7 f8 f9 f10 f11 f12 f13 f14 f15 f16 f17 f18
       f19 f20 f21 f22 f23 f24 f25 f26].
  unfold update_server_input, update_autopilot_input.
  destruct f18, f19, lock, f11; branch; fields; reflexivity.
Qed.

(** X19: The latest value wins: of two publishes in a row with [lock_on]
    false, the second with a zoom in [2, 50], nothing of the first is
    left; of two vehicle samples in a row, the second with a height of 0
    or more, nothing of the first is left. *)
Theorem last_publish_wins (s : ViewController) :
  (forall theta1 phi1 zoom1 theta2 phi2 zoom2,
      server_write s = false -> 2 <= zoom2 <= 50 ->
      update_server_input
        (update_server_input s theta1 phi1 false zoom1)
        theta2 phi2 false zoom2
      = update_server_input s theta2 phi2 false zoom2) /\
  (forall roll1 yaw1 pitch1 height1 lon1 lat1
          roll2 yaw2 pitch2 height2 lon2 lat2,
      autopilot_write s = false -> 0 <= height2 ->
      update_autopilot_input
        (update_autopilot_input s roll1 yaw1 pitch1 height1 lon1 lat1)
        roll2 yaw2 pitch2 height2 lon2 lat2
      = update_autopilot_input s roll2 yaw2 pitch2 height2 lon2 lat2).
Proof.
  split.
  - intros theta1 phi1 zoom1 theta2 phi2 zoom2 Hs Hz.
    revert Hs. destruct s as
        [f1 f2 f3 f4 f5 f6 f7 f8 f9 f10 f11 f12 f13 f14 f15 f16 f17 f18
         f19 f20 f21 f22 f23 f24 f25 f26]. cbn [server_write]. intros ->.
    unfold update_server_input. cbn.
    destruct (Rge_dec zoom2 2) as [_|F]; [|lra].
    destruct (Rle_dec zoom2 50) as [_|F]; [|lra].
    destruct f11; branch; fields; reflexivity.
  - intros roll1 yaw1 pitch1 height1 lon1 lat1
           roll2 yaw2 pitch2 height2 lon2 lat2 Ha Hh.
    revert Ha. destruct s as
        [f1 f2 f3 f4 f5 f6 f7 f8 f9 f10 f11 f12 f13 f14 f15 f16 f17 f18
         f19 f20 f21 f22 f23 f24 f25 f26]. cbn [autopilot_write]. intros ->.
    unfold update_autopilot_input. cbn.
    destruct (Rge_dec height2 0) as [_|F]; [|lra].
    branch; fields; reflexivity.
Qed.

Lemma last_publish_wins_witness :
  update_server_input (update_server_input init 10 20 false 3)
                      30 90 false 5
  = update_server_input init 30 90 false 5.
Proof.
  apply (proj1 (last_publish_wins init)); [reflexivity | lra].
Defined.

Lemma coordinate_to_point_fails_iff_witness :
  coordinate_to_point tf_exact (18, 59) (19, 60) 0 = None.
Proof.
  apply (coordinate_to_point_fails_iff tf_exact (18, 59) (19, 60) 0).
  reflexivity.
Defined.

(** ** The round trip of the geodesic conversions *)

(** X20: With the exact functions and in real arithmetic,
    [coordinate_to_point] undoes [point_to_coordinate] from the same
    origin and height: for a height above 0, 0 < theta < 90 and a
    bearing in (-180, 180], the angle from the vertical comes back as it
    was and the bearing comes back mod 360. *)
Theorem geodesic_round_trip_bearing
    (origin : coord) (theta phi height : R) :
  0 < height -> 0 < theta < 90 -> -180 < phi <= 180 ->
  earth_radius_at_lat (snd origin) <> 0 ->
  exists target,
    point_to_coordinate tf_exact theta phi height origin = Some target /\
    coordinate_to_point tf_exact origin target height
    = Some (theta, pymod phi 360).
Proof.
  intros Hh Ht Hp Hrad. pose proof deg2rad_180 as H180.
  assert (Htr : 0 < deg2rad theta < PI / 2)
    by (unfold deg2rad, DEG_IN_RED in *; lra).
  assert (Hpr : - PI < deg2rad phi <= PI)
    by (unfold deg2rad, DEG_IN_RED in *; lra).
  assert (Htan : 0 < tan (deg2rad theta)) by (apply tan_gt_0; lra).
  set (k := height * tan (deg2rad theta)).
  assert (Hk : 0 < k) by (unfold k; nra).
  set (rad := earth_radius_at_lat (snd origin)) in *.
  unfold point_to_coordinate, pydiv, tf_exact.
  cbn [tf_sin tf_cos tf_tan tf_arctan]. fold rad. fold k.
  destruct (Req_dec_T rad 0) as [E|_]; [contradiction|].
  eexists. split; [reflexivity|].
  unfold coordinate_to_point. cbn [fst snd tf_tan tf_arctan]. fold rad.
  rewrite !rad2deg_plus, !rad2deg_deg2rad.
  replace (fst origin + rad2deg (atan (k * sin (deg2rad phi) / rad))
           - fst origin)
    with (rad2deg (atan (k * sin (deg2rad phi) / rad))) by ring.
  replace (snd origin + rad2deg (atan (k * cos (deg2rad phi) / rad))
           - snd origin)
    with (rad2deg (atan (k * cos (deg2rad phi) / rad))) by ring.
  rewrite !deg2rad_rad2deg, !tan_atan.
  replace (k * sin (deg2rad phi) / rad * rad)
    with (k * sin (deg2rad phi)) by (field; assumption).
  replace (k * cos (deg2rad phi) / rad * rad)
    with (k * cos (deg2rad phi)) by (field; assumption).
  assert (Hphi : (if Req_dec_T (k * sin (deg2rad phi)) 0
                  then if Req_dec_T (k * cos (deg2rad phi)) 0
                       then 0
                       else arctan2 (k * sin (deg2rad phi))
                                    (k * cos (deg2rad phi))
                  else arctan2 (k * sin (deg2rad phi))
                               (k * cos (deg2rad phi)))
                 = deg2rad phi).
  { destruct (Req_dec_T (k * sin (deg2rad phi)) 0) as [Es|_].
    - destruct (Req_dec_T (k * cos (deg2rad phi)) 0) as [Ec|_].
      + exfalso. pose proof (sin2_cos2 (deg2rad phi)) as H1.
        unfold Rsqr in H1.
        assert (sin (deg2rad phi) = 0) by nra.
        assert (cos (deg2rad phi) = 0) by nra. nra.
      + apply arctan2_polar; lra.
    - apply arctan2_polar; lra. }
  rewrite Hphi.
  replace ((k * sin (deg2rad phi)) ^ 2 + (k * cos (deg2rad phi)) ^ 2)
    with (k * k).
  2:{ pose proof (sin2_cos2 (deg2rad phi)) as H1. unfold Rsqr in H1.
      transitivity (k * k * (sin (deg2rad phi) * sin (deg2rad phi)
                             + cos (deg2rad phi) * cos (deg2rad phi)));
        [rewrite H1|]; ring. }
  rewrite sqrt_square by lra.
  unfold pydiv. destruct (Req_dec_T height 0) as [E|_]; [lra|].
  replace (k / height) with (tan (deg2rad theta))
    by (unfold k; field; lra).
  rewrite atan_tan by lra.
  rewrite !rad2deg_deg2rad. reflexivity.
Qed.

Lemma geodesic_round_trip_bearing_witness :
  exists target,
    point_to_coordinate tf_exact 30 (-90) 100 (18, 59) = Some target /\
    coordinate_to_point tf_exact (18, 59) target 100
    = Some (30, pymod (-90) 360).
Proof.
  apply (geodesic_round_trip_bearing (18, 59) 30 (-90) 100); try lra.
  unfold earth_radius_at_lat. cbn [snd]. lra.
Defined.

(** ** A capture armed and then withdrawn *)

Section PendingCapture.

Variable tf : TaylorMath.

Lemma run_direct_pending (tr : list event) :
  forall s : ViewController,
    Safe s -> lock_on_in s = false ->
    Forall (held false) tr -> Forall safe_event tr ->
    exists s',
      run tf tr s = Some (s', []) /\ Safe s' /\ lock_on_in s' = false /\
      init_lock_on s' = init_lock_on s.
Proof.
  induction tr as [|e tr IH]; intros s HS Hl Hh Hsafe.
  - exists s. cbn. auto.
  - inversion Hh as [|? ? He Hh']; subst.
    inversion Hsafe as [|? ? Hse Hsafe']; subst.
    destruct e as [theta phi lock zoom_in|roll yaw pitch height lon lat|].
    + cbn in He. subst lock.
      destruct (update_server_input_lock s theta phi false zoom_in HS)
        as (HS1 & Hl1 & Hi1 & _).
      cbn in Hi1.
      destruct (IH _ HS1 Hl1 Hh' Hsafe') as (s' & Hrun & ? & ? & ?).
      exists s'. rewrite run_cons. cbn [step]. rewrite bind_ret_l.
      conjuncts.
    + destruct (update_autopilot_input_lock s roll yaw pitch height lon lat
                  HS Hse) as (HS1 & Hl1 & Hi1 & _).
      destruct (IH _ HS1 (eq_trans Hl1 Hl) Hh' Hsafe')
        as (s' & Hrun & ? & ? & ?).
      exists s'. rewrite run_cons. cbn [step]. rewrite bind_ret_l.
      conjuncts.
    + destruct (cycle_direct tf s HS Hl) as (s1 & Hc & HS1 & Hl1 & Hi1 & _).
      destruct (IH _ HS1 Hl1 Hh' Hsafe') as (s' & Hrun & ? & ? & ?).
      exists s'. rewrite (run_cycle_Some tf tr s s1 s' [] [] Hc Hrun).
      conjuncts.
Qed.

(** X15: Withdrawing [lock_on] does not disarm a capture: after true and
    false are published with no turn of the loop in between, the capture
    stays pending through any run in direct mode, and the two rising
    edges together give one capture, at the first turn after [lock_on]
    is published true again. *)
Theorem pending_capture_survives_unlock
    (s : ViewController) theta1 phi1 zoom1 theta2 phi2 zoom2
    theta3 phi3 zoom3 (mid post : list event) :
  Safe s -> lock_on_in s = false ->
  Forall (held false) mid -> Forall safe_event mid ->
  Forall (held true) post -> Forall safe_event post ->
  exists s1 s' c,
    run tf (ServerInput theta1 phi1 true zoom1
              :: ServerInput theta2 phi2 false zoom2 :: mid) s
    = Some (s1, []) /\
    init_lock_on s1 = true /\
    run tf (ServerInput theta1 phi1 true zoom1
              :: ServerInput theta2 phi2 false zoom2
              :: mid
              ++ ServerInput theta3 phi3 true zoom3 :: Cycle :: post) s
    = Some (s', [c]).
Proof.
  intros HS Hl Hhm Hsm Hhp Hsp.
  destruct (update_server_input_lock s theta1 phi1 true zoom1 HS)
    as (HSa & Hla & Hia & _).
  rewrite Hl in Hia. cbn in Hia.
  set (sa := update_server_input s theta1 phi1 true zoom1) in *.
  destruct (update_server_input_lock sa theta2 phi2 false zoom2 HSa)
    as (HSb & Hlb & Hib & _).
  cbn in Hib. rewrite Hia in Hib.
  set (sb := update_server_input sa theta2 phi2 false zoom2) in *.
  destruct (run_direct_pending mid sb HSb Hlb Hhm Hsm)
    as (s1 & Hr1 & HS1 & Hl1 & Hi1).
  destruct (update_server_input_lock s1 theta3 phi3 true zoom3 HS1)
    as (HSc & Hlc & Hic & _).
  rewrite Hl1 in Hic. cbn in Hic.
  set (sc := update_server_input s1 theta3 phi3 true zoom3) in *.
  assert (Hh' : Forall (held true) ([] ++ Cycle :: post))
    by (constructor; [exact I | exact Hhp]).
  assert (Hsafe' : Forall safe_event ([] ++ Cycle :: post))
    by (constructor; [exact I | exact Hsp]).
  destruct (run_session tf [] post sc HSc Hlc Hic Hh' Hsafe' (fun F => F))
    as (_ & s' & c & _ & Hr & _).
  exists s1, s', c.
  assert (E2 : run tf (ServerInput theta1 phi1 true zoom1
                         :: ServerInput theta2 phi2 false zoom2 :: mid) s
               = Some (s1, [])).
  { do 2 (rewrite run_cons; cbn [step]; rewrite bind_ret_l). exact Hr1. }
  split; [exact E2|]. split; [congruence|].
  do 2 (rewrite run_cons; cbn [step]; rewrite bind_ret_l).
  fold sa. fold sb. rewrite run_app, Hr1. cbn [bind].
  rewrite run_cons. cbn [step]. rewrite bind_ret_l. fold sc.
  cbn [app] in Hr. rewrite Hr. reflexivity.
Qed.

End PendingCapture.

Lemma pending_capture_survives_unlock_witness :
  exists s' c,
    run tf_exact [ServerInput 0 0 true 2; ServerInput 30 90 false 2;
                  Cycle; Cycle; ServerInput 0 0 true 2; Cycle; Cycle] init
    = Some (s', [c]).
Proof.
  destruct (pending_capture_survives_unlock tf_exact init 0 0 2 30 90 2 0 0 2
              [Cycle; Cycle] [Cycle] Safe_init eq_refl
              ltac:(repeat constructor) ltac:(repeat constructor)
              ltac:(repeat constructor) ltac:(repeat constructor))
    as (s1 & s' & c & _ & _ & H).
  exists s', c. exact H.
Defined.
